(** * Amortization engine of [mortgage.py], over exact rational magnitudes.

    The module [mortgage.py] computes with [pint] quantities: a numeric
    magnitude tagged with a product of named units.  The embedding keeps
    that shape.  Magnitudes are canonical rationals ([Qc]) in place of
    Python floats, so every statement below is about exact arithmetic;
    the literals [0.1] and [0.125] stand for [1/10] and [1/8]. *)

From Stdlib Require Import ZArith QArith Qcanon Qround Qpower List Bool Lia Lqa.
Import ListNotations.

(** ** Exceptions *)

Inductive error : Type :=
| DimensionalityError
| ZeroDivisionError.

Inductive result (A : Type) : Type :=
| Ok (a : A)
| Raise (e : error).

Arguments Ok {A} a.
Arguments Raise {A} e.

Definition bind {A B : Type} (c : result A) (k : A -> result B) : result B :=
  match c with
  | Ok a => k a
  | Raise e => Raise e
  end.

Notation "'let*' x ':=' c 'in' k" := (bind c (fun x => k))
  (at level 10, x name, c at level 100, k at level 200).

(** ** Units

    A [pint] units container maps unit names to exponents.  The program
    names five units: [dollars] and [dp] (declared in [units.txt]),
    [year] and [month] (default registry), and [percent] (line 13). *)

Record Units : Type := mkUnits {
  u_dollars : Z;
  u_year : Z;
  u_month : Z;
  u_percent : Z;
  u_dp : Z
}.

Definition units_eqb (u v : Units) : bool :=
  (u_dollars u =? u_dollars v)%Z && (u_year u =? u_year v)%Z &&
  (u_month u =? u_month v)%Z && (u_percent u =? u_percent v)%Z &&
  (u_dp u =? u_dp v)%Z.

Definition units_mul (u v : Units) : Units :=
  mkUnits (u_dollars u + u_dollars v) (u_year u + u_year v)
          (u_month u + u_month v) (u_percent u + u_percent v)
          (u_dp u + u_dp v).

Definition units_div (u v : Units) : Units :=
  mkUnits (u_dollars u - u_dollars v) (u_year u - u_year v)
          (u_month u - u_month v) (u_percent u - u_percent v)
          (u_dp u - u_dp v).

Definition dimensionless : Units := mkUnits 0 0 0 0 0.

(** Modelled from the spec: [units.txt], which declares the money unit, is
    not part of the sources; the spec asks for a currency-agnostic monetary
    unit, taken here as a base unit of its own dimension. *)
Definition dollars : Units := mkUnits 1 0 0 0 0.
Definition year : Units := mkUnits 0 1 0 0 0.
Definition month : Units := mkUnits 0 0 1 0 0.
Definition percent : Units := mkUnits 0 0 0 1 0.

(** Modelled from the spec: [units.txt], which declares the discount point,
    is not part of the sources; the spec asks for a discount-point unit
    usable in the per-point ratios, taken here as a base unit of its own
    dimension. *)
Definition dp : Units := mkUnits 0 0 0 0 1.

Definition percent_per_year : Units := units_div percent year.
Definition percent_per_month : Units := units_div percent month.
Definition per_month : Units := units_div dimensionless month.
Definition dollars_per_month : Units := units_div dollars month.
Definition percent_per_dp : Units := units_div percent dp.
Definition percent_per_year_dp : Units := units_div percent (units_mul year dp).

(** Dimensionality: exponents of money, time and discount points. *)

Record Dim : Type := mkDim {
  d_money : Z;
  d_time : Z;
  d_point : Z
}.

Definition dim_eqb (a b : Dim) : bool :=
  (d_money a =? d_money b)%Z && (d_time a =? d_time b)%Z &&
  (d_point a =? d_point b)%Z.

Definition dimensionality (u : Units) : Dim :=
  mkDim (u_dollars u) (u_year u + u_month u) (u_dp u).

Definition dim_money : Dim := mkDim 1 0 0.
Definition dim_time : Dim := mkDim 0 1 0.
Definition dim_none : Dim := mkDim 0 0 0.
Definition dim_per_time : Dim := mkDim 0 (-1) 0.
Definition dim_money_per_time : Dim := mkDim 1 (-1) 0.
Definition dim_point : Dim := mkDim 0 0 1.
Definition dim_per_point : Dim := mkDim 0 0 (-1).
Definition dim_per_time_point : Dim := mkDim 0 (-1) (-1).

(** Scale of one unit product against the root units (dollars, months,
    discount points): twelve months to the year, a hundredth to the percent. *)

Definition factorQ (u : Units) : Q :=
  (Qpower (12 # 1) (u_year u) * Qpower (1 # 100) (u_percent u))%Q.

Definition factor (u : Units) : Qc := Q2Qc (factorQ u).

(** ** Quantities *)

Record Quantity : Type := mkQ {
  magnitude : Qc;
  units : Units
}.

Definition Qc_ltb (x y : Qc) : bool := negb (Qle_bool y x).
Definition Qc_eqb (x y : Qc) : bool := Qeq_bool x y.

Definition root (q : Quantity) : Qc := (magnitude q * factor (units q))%Qc.

Definition compatible (u v : Units) : bool :=
  dim_eqb (dimensionality u) (dimensionality v).

(** [Quantity.to]. *)
Definition qto (q : Quantity) (target : Units) : result Quantity :=
  if compatible (units q) target
  then Ok (mkQ (magnitude q * factor (units q) / factor target) target)
  else Raise DimensionalityError.

(** [Quantity.__mul__], [__truediv__]: magnitudes and unit exponents combine. *)
Definition qmul (a b : Quantity) : Quantity :=
  mkQ (magnitude a * magnitude b) (units_mul (units a) (units b)).

Definition qdiv (a b : Quantity) : result Quantity :=
  if Qc_eqb (magnitude b) 0 then Raise ZeroDivisionError
  else Ok (mkQ (magnitude a / magnitude b) (units_div (units a) (units b))).

(** Multiplication and division of a quantity by a bare number. *)
Definition qscale (a : Quantity) (x : Qc) : Quantity :=
  mkQ (magnitude a * x) (units a).

Definition qdiv_scalar (a : Quantity) (x : Qc) : result Quantity :=
  if Qc_eqb x 0 then Raise ZeroDivisionError
  else Ok (mkQ (magnitude a / x) (units a)).

(** [Quantity._add_sub]: the result carries the units of the left operand. *)
Definition qadd_sub (op : Qc -> Qc -> Qc) (a b : Quantity) : result Quantity :=
  if negb (compatible (units a) (units b)) then Raise DimensionalityError
  else if units_eqb (units a) (units b)
       then Ok (mkQ (op (magnitude a) (magnitude b)) (units a))
       else let* b' := qto b (units a) in
            Ok (mkQ (op (magnitude a) (magnitude b')) (units a)).

Definition qadd : Quantity -> Quantity -> result Quantity := qadd_sub Qcplus.
Definition qsub : Quantity -> Quantity -> result Quantity := qadd_sub Qcminus.

(** [Quantity.compare] with [operator.gt]. *)
Definition qgt (a b : Quantity) : result bool :=
  if units_eqb (units a) (units b) then Ok (Qc_ltb (magnitude b) (magnitude a))
  else if negb (compatible (units a) (units b)) then Raise DimensionalityError
  else Ok (Qc_ltb (root b) (root a)).

(** [float ** int]. *)
Definition py_pow (x : Qc) (n : Z) : result Qc :=
  if (n <? 0)%Z && Qc_eqb x 0 then Raise ZeroDivisionError
  else Ok (Q2Qc (Qpower x n)).

(** [math.ceil] of a quantity goes through [Quantity.__float__], which
    accepts dimensionless quantities only. *)
Definition py_ceil (q : Quantity) : result Z :=
  if compatible (units q) dimensionless
  then Ok (Qceiling (root q))
  else Raise DimensionalityError.

(** ** The loan state ([class Mortgage]) *)

Record Mortgage : Type := mkMortgage {
  loan_amount : Quantity;
  home_value : Quantity;
  duration : Quantity;
  base_rate : Quantity;
  base_closing_costs : Quantity;
  cost_per_point : Quantity;
  rate_reduction_per_point : Quantity
}.

(** [dataclasses.replace(m, loan_amount=a)]. *)
Definition replace_loan_amount (m : Mortgage) (a : Quantity) : Mortgage :=
  mkMortgage a (home_value m) (duration m) (base_rate m)
             (base_closing_costs m) (cost_per_point m)
             (rate_reduction_per_point m).

Definition Qz (z : Z) : Qc := Q2Qc (inject_Z z).

(** The field defaults of the dataclass. *)
Definition default_mortgage : Mortgage :=
  mkMortgage (mkQ (Qz 500000) dollars) (mkQ (Qz 600000) dollars)
             (mkQ (Qz 10) year) (mkQ (Qz 4) percent_per_year)
             (mkQ (Qz 5000) dollars) (mkQ (Qz 1) percent_per_dp)
             (mkQ (Q2Qc (1 # 8)) percent_per_year_dp).

Definition effective_rate (self : Mortgage) (n_points : Quantity)
  : result Quantity :=
  qsub (base_rate self) (qmul (rate_reduction_per_point self) n_points).

Definition actual_closing_costs (self : Mortgage) (n_points : Quantity)
  : result Quantity :=
  qadd (base_closing_costs self)
       (qmul (qmul (cost_per_point self) (loan_amount self)) n_points).

Definition down_payment (self : Mortgage) : result Quantity :=
  qsub (home_value self) (loan_amount self).

Definition one_month : Quantity := mkQ 1 month.

Definition n_payments (self : Mortgage) : result Z :=
  let* d := qdiv (duration self) one_month in
  py_ceil d.

Definition base_payment (self : Mortgage) (n_points : Quantity)
  : result Quantity :=
  let* rate := effective_rate self n_points in
  let* monthly_rate := qto rate percent_per_month in
  let* fraction := qto monthly_rate per_month in
  let* n := n_payments self in
  let* compounding := py_pow (1 + magnitude fraction) n in
  let* q := qdiv_scalar
              (qscale (qmul (loan_amount self) monthly_rate) compounding)
              (compounding - 1) in
  qto q dollars_per_month.

(** ** The schedule generator *)

Definition Strategy : Type := Mortgage -> Quantity.

(** The default of line 59. *)
Definition no_overpayment : Strategy := fun _ => mkQ 0 dollars_per_month.

(** The cut-off of line 65. *)
Definition epsilon : Quantity := mkQ (Q2Qc (1 # 10)) dollars.

(** Lines 66-70. *)
Definition interest_of (self : Mortgage) (n_points : Quantity)
           (remaining : Mortgage) : result Quantity :=
  let* rate := effective_rate self n_points in
  let* monthly_rate := qto rate percent_per_month in
  Ok (qmul (qmul (loan_amount remaining) one_month) monthly_rate).

(** One pass through the loop body, lines 66-77: the state and the payment
    that are yielded. *)
Definition schedule_step (self : Mortgage) (n_points : Quantity)
           (overpayment_strategy : Strategy) (base : Quantity)
           (remaining : Mortgage) : result (Mortgage * Quantity) :=
  let* interest := interest_of self n_points remaining in
  let* payment := qadd base (qmul (overpayment_strategy remaining) one_month) in
  let* principal := qsub payment interest in
  let* over := qgt principal (loan_amount remaining) in
  let* payment := (if over : bool then qadd principal interest else Ok payment) in
  let* amount := qsub (loan_amount remaining) principal in
  Ok (replace_loan_amount self amount, payment).

(** How a run of the generator ends: the loop condition failed, an
    exception escaped, or the allotted number of iterations ran out. *)
Inductive status : Type :=
| StopIteration
| Raised (e : error)
| OutOfFuel.

Fixpoint schedule_loop (fuel : nat) (self : Mortgage) (n_points : Quantity)
         (overpayment_strategy : Strategy) (base : Quantity)
         (remaining : Mortgage) : list (Mortgage * Quantity) * status :=
  match fuel with
  | O => ([], OutOfFuel)
  | S fuel' =>
      match qgt (loan_amount remaining) epsilon with
      | Raise e => ([], Raised e)
      | Ok false => ([], StopIteration)
      | Ok true =>
          match schedule_step self n_points overpayment_strategy base remaining with
          | Raise e => ([], Raised e)
          | Ok (next, payment) =>
              let (rest, st) :=
                schedule_loop fuel' self n_points overpayment_strategy base next in
              ((next, payment) :: rest, st)
          end
      end
  end.

Definition payment_schedule (fuel : nat) (self : Mortgage) (n_points : Quantity)
           (overpayment_strategy : option Strategy)
  : list (Mortgage * Quantity) * status :=
  let strategy := match overpayment_strategy with
                  | None => no_overpayment
                  | Some s => s
                  end in
  match (let* b := base_payment self n_points in Ok (qmul b one_month)) with
  | Raise e => ([], Raised e)
  | Ok base => schedule_loop fuel self n_points strategy base self
  end.

(** ** The aggregate *)

(** Python's [sum] starts from the integer [0]; [pint] lets a bare zero be
    added to a quantity of any units. *)
Inductive pyval : Type :=
| PInt0
| PQty (q : Quantity).

Definition radd (acc : pyval) (q : Quantity) : result pyval :=
  match acc with
  | PInt0 => Ok (PQty (mkQ (magnitude q + 0) (units q)))
  | PQty a => let* s := qadd a q in Ok (PQty s)
  end.

Fixpoint sum_from (acc : pyval) (l : list Quantity) : result pyval :=
  match l with
  | [] => Ok acc
  | q :: tl => let* acc' := radd acc q in sum_from acc' tl
  end.

Definition py_sum (l : list Quantity) : result pyval := sum_from PInt0 l.

Definition add_pyval (a : Quantity) (v : pyval) : result Quantity :=
  match v with
  | PInt0 => Ok (mkQ (magnitude a + 0) (units a))
  | PQty q => qadd a q
  end.

(** [None] when the schedule does not finish within [fuel] iterations. *)
Definition total_cost (fuel : nat) (self : Mortgage) (n_points : Quantity)
           (overpayment_strategy : option Strategy)
  : option (result (Quantity * Quantity)) :=
  match payment_schedule fuel self n_points overpayment_strategy with
  | (_, OutOfFuel) => None
  | (_, Raised e) => Some (Raise e)
  | (schedule, StopIteration) =>
      Some (let* d := down_payment self in
            let* c := actual_closing_costs self n_points in
            let* dc := qadd d c in
            let* s := py_sum (map snd schedule) in
            let* total := add_pyval dc s in
            Ok (total, mkQ (Qz (Z.of_nat (length schedule))) month))
  end.

(** ** Vocabulary of the statements *)

Definition same_terms (a b : Mortgage) : Prop :=
  home_value a = home_value b /\
  duration a = duration b /\
  base_rate a = base_rate b /\
  base_closing_costs a = base_closing_costs b /\
  cost_per_point a = cost_per_point b /\
  rate_reduction_per_point a = rate_reduction_per_point b.

Definition zero_strategy (s : Strategy) : Prop :=
  forall m, magnitude (s m) = 0%Qc /\
            dimensionality (units (s m)) = dim_money_per_time.

(** Nothing extra, quoted per year rather than per month. *)
Definition zero_per_year : Strategy :=
  fun _ => mkQ 0 (units_div dollars year).

(** Sum over the steps of that step's payment minus that step's interest,
    the interest being charged on the balance before the step. *)
Fixpoint principal_sum (self : Mortgage) (n_points : Quantity)
         (previous : Mortgage) (schedule : list (Mortgage * Quantity))
  : result Qc :=
  match schedule with
  | [] => Ok 0%Qc
  | (state, payment) :: rest =>
      let* interest := interest_of self n_points previous in
      let* principal := qsub payment interest in
      let* s := principal_sum self n_points state rest in
      Ok (root principal + s)%Qc
  end.

(** The last yielded state; the loan itself when nothing is yielded. *)
Definition final_state (self : Mortgage) (schedule : list (Mortgage * Quantity))
  : Mortgage :=
  last (map fst schedule) self.

Definition has_dim (q : Quantity) (d : Dim) : Prop :=
  dimensionality (units q) = d.

(** The field types of the data model. *)
Definition well_dimensioned (self : Mortgage) : Prop :=
  has_dim (loan_amount self) dim_money /\
  has_dim (home_value self) dim_money /\
  has_dim (duration self) dim_time /\
  has_dim (base_rate self) dim_per_time /\
  has_dim (base_closing_costs self) dim_money /\
  has_dim (cost_per_point self) dim_per_point /\
  has_dim (rate_reduction_per_point self) dim_per_time_point.

(** The invariants the data model lists: the field types, a balance that
    is not negative and not above the home value, and monetary and time
    fields that are not negative. *)
Definition valid_loan (self : Mortgage) : Prop :=
  well_dimensioned self /\
  (0 <= root (loan_amount self))%Qc /\
  (root (loan_amount self) <= root (home_value self))%Qc /\
  (0 <= root (duration self))%Qc /\
  (0 <= root (base_closing_costs self))%Qc.

Definition is_ok {A : Type} (r : result A) : bool :=
  match r with
  | Ok _ => true
  | Raise _ => false
  end.

(** The effective monthly rate as a plain fraction, the [r] of the payment
    formula; zero where the rate is not defined. *)
Definition monthly_fraction (self : Mortgage) (n_points : Quantity) : Qc :=
  match effective_rate self n_points with
  | Ok rate => root rate
  | Raise _ => 0%Qc
  end.

(** The number of payments as an integer; zero where it is not defined. *)
Definition payments_count (self : Mortgage) : Z :=
  match n_payments self with
  | Ok n => n
  | Raise _ => 0%Z
  end.

(** [(1 + r) ** n_payments] of line 54, as a function of the loan. *)
Definition compounding_of (self : Mortgage) (n_points : Quantity) : Qc :=
  Q2Qc (Qpower (1 + monthly_fraction self n_points)%Qc (payments_count self)).

(** Sum of the payments, in dollars. *)
Definition total_payments (l : list Quantity) : Qc :=
  fold_right (fun q s => (root q + s)%Qc) 0%Qc l.

(** The same extra amount, whatever the remaining balance. *)
Definition constant_strategy (x : Quantity) : Strategy := fun _ => x.


(** The strategy the generator runs with. *)
Definition strategy_or_default (s : option Strategy) : Strategy :=
  match s with
  | None => no_overpayment
  | Some f => f
  end.

(** The amortization recurrence along a schedule, in dollars: each payment
    is the base plus the extra asked for the balance before it, and each
    balance is the one before it with a month of interest added and the
    payment taken off. *)
Fixpoint amortizes (r base : Qc) (strategy : Strategy) (previous : Mortgage)
         (schedule : list (Mortgage * Quantity)) : Prop :=
  match schedule with
  | [] => True
  | (next, payment) :: rest =>
      root payment = (base + root (strategy previous))%Qc /\
      root (loan_amount next)
      = (root (loan_amount previous) * (1 + r) - root payment)%Qc /\
      amortizes r base strategy next rest
  end.

(** The states the loop condition is tested on: the loan, then each
    yielded state. *)
Definition visited (self : Mortgage) (schedule : list (Mortgage * Quantity))
  : list Mortgage :=
  self :: map fst schedule.


(** ** Sample loans *)

Definition no_points : Quantity := mkQ 0 dp.

(** A loan of 100 dollars over two months at 12 percent a year. *)
Definition two_month_loan : Mortgage :=
  mkMortgage (mkQ (Qz 100) dollars) (mkQ (Qz 200) dollars)
             (mkQ (Qz 2) month) (mkQ (Qz 12) percent_per_year)
             (mkQ (Qz 5) dollars) (mkQ (Qz 1) percent_per_dp)
             (mkQ (Q2Qc (1 # 8)) percent_per_year_dp).

(** Ten dollars more, every month. *)
Definition ten_extra : Strategy := fun _ => mkQ (Qz 10) dollars_per_month.

(** The observable content of a schedule: balances and payments as
    fractions, with their units. *)
Definition show (q : Quantity) : Q * Units := (this (magnitude q), units q).

Definition show_schedule (r : list (Mortgage * Quantity) * status)
  : list ((Q * Units) * (Q * Units)) * status :=
  (map (fun step => (show (loan_amount (fst step)), show (snd step))) (fst r),
   snd r).

(** The default loan with a rate "reduction" of minus an eighth of a
    percent per point. *)
Definition rate_raising_loan : Mortgage :=
  mkMortgage (mkQ (Qz 500000) dollars) (mkQ (Qz 600000) dollars)
             (mkQ (Qz 10) year) (mkQ (Qz 4) percent_per_year)
             (mkQ (Qz 5000) dollars) (mkQ (Qz 1) percent_per_dp)
             (mkQ (Q2Qc (-1 # 8)) percent_per_year_dp).

Definition one_point : Quantity := mkQ 1 dp.

(** A hundred dollars over two months at minus 2400 percent a year: a
    monthly rate of minus two, whose compounding over two months is one. *)
Definition cancelling_loan : Mortgage :=
  mkMortgage (mkQ (Qz 100) dollars) (mkQ (Qz 200) dollars)
             (mkQ (Qz 2) month) (mkQ (Qz (-2400)) percent_per_year)
             (mkQ (Qz 5) dollars) (mkQ (Qz 1) percent_per_dp)
             (mkQ (Q2Qc (1 # 8)) percent_per_year_dp).

(** Five cents left on the two-month loan. *)
Definition nearly_paid_loan : Mortgage :=
  replace_loan_amount two_month_loan (mkQ (Q2Qc (1 # 20)) dollars).

(** A paid-off loan at a rate of zero. *)
Definition zero_rate_paid_loan : Mortgage :=
  mkMortgage (mkQ (Qz 0) dollars) (mkQ (Qz 200) dollars)
             (mkQ (Qz 2) month) (mkQ (Qz 0) percent_per_year)
             (mkQ (Qz 5) dollars) (mkQ (Qz 1) percent_per_dp)
             (mkQ (Q2Qc (1 # 8)) percent_per_year_dp).

Definition two_month_steps : list (Mortgage * Quantity) :=
  fst (payment_schedule 5 two_month_loan no_points None).

(** A hundred dollars over two months at minus 3600 percent a year: a
    monthly rate of minus three. *)
Definition steep_loan : Mortgage :=
  mkMortgage (mkQ (Qz 100) dollars) (mkQ (Qz 200) dollars)
             (mkQ (Qz 2) month) (mkQ (Qz (-3600)) percent_per_year)
             (mkQ (Qz 5) dollars) (mkQ (Qz 1) percent_per_dp)
             (mkQ (Q2Qc (1 # 8)) percent_per_year_dp).

(** One point, given as a bare number instead of in discount points. *)
Definition bare_point : Quantity := mkQ 1 dimensionless.

(** * Properties *)

(** ** Rational arithmetic *)

Lemma this_Q2Qc (q : Q) : (this (Q2Qc q) == q)%Q.
Proof. apply Qred_correct. Qed.

Lemma this_plus (x y : Qc) : (this (x + y)%Qc == this x + this y)%Q.
Proof. apply this_Q2Qc. Qed.

Lemma this_mult (x y : Qc) : (this (x * y)%Qc == this x * this y)%Q.
Proof. apply this_Q2Qc. Qed.

Lemma this_opp (x : Qc) : (this (- x)%Qc == - this x)%Q.
Proof. apply this_Q2Qc. Qed.

Lemma this_minus (x y : Qc) : (this (x - y)%Qc == this x - this y)%Q.
Proof. unfold Qcminus. rewrite this_plus, this_opp. reflexivity. Qed.

(** Moves an order statement over [Qc] to the underlying fractions, where
    [lra] and [nra] apply. *)
Ltac qc2q :=
  unfold Qcle, Qclt in *;
  repeat (rewrite ?this_plus, ?this_minus, ?this_mult, ?this_opp, ?this_Q2Qc in * ).

Lemma Qc_ltb_lt (x y : Qc) : Qc_ltb x y = true <-> (x < y)%Qc.
Proof.
  unfold Qc_ltb, Qclt. rewrite negb_true_iff.
  destruct (Qle_bool y x) eqn:E.
  - apply Qle_bool_iff in E. split; [discriminate | intro H; exfalso; lra].
  - split; [intros _ | reflexivity].
    apply Qnot_le_lt. intro H. apply Qle_bool_iff in H. congruence.
Qed.

Lemma Qc_ltb_ge (x y : Qc) : Qc_ltb x y = false <-> (y <= x)%Qc.
Proof.
  destruct (Qc_ltb x y) eqn:E.
  - apply Qc_ltb_lt in E. split; [discriminate | intro H].
    exfalso. revert E H. unfold Qcle, Qclt. lra.
  - split; [intros _ | reflexivity].
    apply Qcnot_lt_le. intro H. apply Qc_ltb_lt in H. congruence.
Qed.

Lemma Qc_eqb_eq (x y : Qc) : Qc_eqb x y = true <-> x = y.
Proof.
  unfold Qc_eqb. rewrite Qeq_bool_iff. split.
  - apply Qc_is_canon.
  - intros ->. reflexivity.
Qed.

Lemma Qc_eqb_neq (x y : Qc) : Qc_eqb x y = false <-> x <> y.
Proof.
  destruct (Qc_eqb x y) eqn:E.
  - apply Qc_eqb_eq in E. split; [discriminate | congruence].
  - split; [intros _ H | reflexivity]. apply Qc_eqb_eq in H. congruence.
Qed.

(** ** Units and scales *)

Lemma units_eqb_eq (u v : Units) : units_eqb u v = true <-> u = v.
Proof.
  unfold units_eqb. rewrite !andb_true_iff, !Z.eqb_eq.
  destruct u, v; simpl. split.
  - intros [[[[-> ->] ->] ->] ->]. reflexivity.
  - intros H. injection H as -> -> -> -> ->. repeat split.
Qed.

Lemma units_eqb_refl (u : Units) : units_eqb u u = true.
Proof. apply units_eqb_eq. reflexivity. Qed.

Lemma dim_eqb_eq (a b : Dim) : dim_eqb a b = true <-> a = b.
Proof.
  unfold dim_eqb. rewrite !andb_true_iff, !Z.eqb_eq.
  destruct a, b; simpl. split.
  - intros [[-> ->] ->]. reflexivity.
  - intros H. injection H as -> -> ->. repeat split.
Qed.

Lemma compatible_iff (u v : Units) :
  compatible u v = true <-> dimensionality u = dimensionality v.
Proof. apply dim_eqb_eq. Qed.

Lemma compatible_refl (u : Units) : compatible u u = true.
Proof. apply compatible_iff. reflexivity. Qed.

Lemma compatible_sym (u v : Units) : compatible u v = compatible v u.
Proof.
  destruct (compatible u v) eqn:E, (compatible v u) eqn:F; try reflexivity.
  - apply compatible_iff in E. symmetry in E. apply compatible_iff in E. congruence.
  - apply compatible_iff in F. symmetry in F. apply compatible_iff in F. congruence.
Qed.

Lemma factorQ_pos (u : Units) : (0 < factorQ u)%Q.
Proof.
  unfold factorQ.
  assert (H1 : (0 < Qpower (12 # 1) (u_year u))%Q) by (apply Qpower_0_lt; reflexivity).
  assert (H2 : (0 < Qpower (1 # 100) (u_percent u))%Q) by (apply Qpower_0_lt; reflexivity).
  nra.
Qed.

Lemma factor_pos (u : Units) : (0 < factor u)%Qc.
Proof. unfold factor. qc2q. apply factorQ_pos. Qed.

Lemma factor_neq_0 (u : Units) : factor u <> 0%Qc.
Proof.
  intro H. pose proof (factor_pos u) as P. rewrite H in P.
  revert P. unfold Qclt. simpl. lra.
Qed.

Lemma factor_mul (u v : Units) :
  factor (units_mul u v) = (factor u * factor v)%Qc.
Proof.
  unfold factor, Qcmult. apply Q2Qc_eq_iff. rewrite !this_Q2Qc.
  unfold factorQ, units_mul; simpl.
  rewrite !Qpower_plus by (intro H; discriminate H). ring.
Qed.

Lemma factor_div (u v : Units) :
  factor (units_div u v) = (factor u / factor v)%Qc.
Proof.
  assert (E : (factor (units_div u v) * factor v)%Qc = factor u).
  { rewrite <- factor_mul. f_equal. destruct u, v; unfold units_mul, units_div; simpl.
    f_equal; lia. }
  rewrite <- E. field. apply factor_neq_0.
Qed.

(** ** Quantity arithmetic in root units *)

Lemma root_qmul (a b : Quantity) : root (qmul a b) = (root a * root b)%Qc.
Proof. unfold root, qmul; simpl. rewrite factor_mul. ring. Qed.

Lemma root_qscale (a : Quantity) (x : Qc) : root (qscale a x) = (root a * x)%Qc.
Proof. unfold root, qscale; simpl. ring. Qed.

Lemma qto_ok (q : Quantity) (t : Units) (q' : Quantity) :
  qto q t = Ok q' ->
  units q' = t /\ root q' = root q /\ compatible (units q) t = true.
Proof.
  unfold qto. destruct (compatible (units q) t) eqn:E; [| discriminate].
  intros H. injection H as <-. simpl. repeat split.
  unfold root; simpl. field. apply factor_neq_0.
Qed.

Lemma qto_compatible (q : Quantity) (t : Units) :
  compatible (units q) t = true ->
  qto q t = Ok (mkQ (root q / factor t) t).
Proof. unfold qto, root. intros ->. reflexivity. Qed.

Lemma qto_same (q : Quantity) : qto q (units q) = Ok q.
Proof.
  unfold qto. rewrite compatible_refl. destruct q as [m u]; simpl.
  f_equal. f_equal. field. apply factor_neq_0.
Qed.

(** Both branches of [_add_sub] compute the same quantity: the shortcut
    for equal units agrees with the conversion. *)
Lemma qadd_sub_spec (op : Qc -> Qc -> Qc) (a b : Quantity) :
  qadd_sub op a b =
  if compatible (units a) (units b)
  then Ok (mkQ (op (magnitude a) (root b / factor (units a))) (units a))
  else Raise DimensionalityError.
Proof.
  unfold qadd_sub. destruct (compatible (units a) (units b)) eqn:E; simpl;
    [| reflexivity].
  destruct (units_eqb (units a) (units b)) eqn:U.
  - apply units_eqb_eq in U. rewrite U. do 3 f_equal.
    unfold root. field. apply factor_neq_0.
  - rewrite qto_compatible by (rewrite compatible_sym; exact E). reflexivity.
Qed.

Lemma qadd_ok (a b c : Quantity) :
  qadd a b = Ok c ->
  units c = units a /\ root c = (root a + root b)%Qc /\
  compatible (units a) (units b) = true.
Proof.
  unfold qadd. rewrite qadd_sub_spec.
  destruct (compatible (units a) (units b)); [| discriminate].
  intros H. injection H as <-. repeat split.
  unfold root; cbn [magnitude units]. field. apply factor_neq_0.
Qed.

Lemma qsub_ok (a b c : Quantity) :
  qsub a b = Ok c ->
  units c = units a /\ root c = (root a - root b)%Qc /\
  compatible (units a) (units b) = true.
Proof.
  unfold qsub. rewrite qadd_sub_spec.
  destruct (compatible (units a) (units b)); [| discriminate].
  intros H. injection H as <-. repeat split.
  unfold root; cbn [magnitude units]. field. apply factor_neq_0.
Qed.

Lemma root_lt_same_units (a b : Quantity) :
  units a = units b ->
  Qc_ltb (magnitude b) (magnitude a) = Qc_ltb (root b) (root a).
Proof.
  intros U. unfold root. rewrite U.
  pose proof (factor_pos (units b)) as P.
  destruct (Qc_ltb (magnitude b * factor (units b))
                   (magnitude a * factor (units b))) eqn:E.
  - apply Qc_ltb_lt in E. apply Qc_ltb_lt. revert P E. qc2q. nra.
  - apply Qc_ltb_ge in E. apply Qc_ltb_ge. revert P E. qc2q. nra.
Qed.

Lemma qgt_spec (a b : Quantity) :
  qgt a b =
  if compatible (units a) (units b) then Ok (Qc_ltb (root b) (root a))
  else Raise DimensionalityError.
Proof.
  unfold qgt. destruct (units_eqb (units a) (units b)) eqn:U.
  - apply units_eqb_eq in U. rewrite U, compatible_refl.
    f_equal. apply root_lt_same_units. exact U.
  - destruct (compatible (units a) (units b)); reflexivity.
Qed.

Lemma result_bind_ok {A B : Type} (c : result A) (k : A -> result B) (b : B) :
  bind c k = Ok b -> exists a, c = Ok a /\ k a = Ok b.
Proof. destruct c; simpl; [eauto | discriminate]. Qed.

(** Splits a successful sequence of operations into its successful parts. *)
Ltac ok_inv H :=
  let x := fresh "x" in
  let E := fresh "E" in
  apply result_bind_ok in H; destruct H as (x & E & H).

(** ** One step of the schedule *)

Lemma root_one_month : root one_month = 1%Qc.
Proof. apply Qc_is_canon. reflexivity. Qed.

(** Adding back what was subtracted restores the quantity itself: in
    exact arithmetic the assignment of line 75 changes nothing. *)
Lemma qsub_qadd_cancel (p i pr : Quantity) :
  qsub p i = Ok pr -> qadd pr i = Ok p.
Proof.
  unfold qsub, qadd. rewrite !qadd_sub_spec.
  destruct (compatible (units p) (units i)) eqn:C; [| discriminate].
  intros H. injection H as <-. cbn [units magnitude]. rewrite C.
  destruct p as [m u]. cbn [units magnitude]. do 2 f_equal. ring.
Qed.

(** A successful pass through the loop body, operation by operation. *)
Lemma schedule_step_inv self n_points strategy base remaining next payment :
  schedule_step self n_points strategy base remaining = Ok (next, payment) ->
  exists interest principal,
    interest_of self n_points remaining = Ok interest /\
    qadd base (qmul (strategy remaining) one_month) = Ok payment /\
    qsub payment interest = Ok principal /\
    (exists over, qgt principal (loan_amount remaining) = Ok over) /\
    qsub (loan_amount remaining) principal = Ok (loan_amount next) /\
    next = replace_loan_amount self (loan_amount next).
Proof.
  unfold schedule_step. intros H.
  ok_inv H. rename x into interest, E into Ei.
  ok_inv H. rename x into pay0, E into Ep.
  ok_inv H. rename x into principal, E into Epr.
  ok_inv H. rename x into over, E into Eo.
  ok_inv H. rename x into pay1, E into Ep1.
  ok_inv H. rename x into amount, E into Ea.
  injection H as <- <-.
  assert (P : pay1 = pay0).
  { destruct over; [| congruence].
    rewrite (qsub_qadd_cancel _ _ _ Epr) in Ep1. congruence. }
  subst pay1. exists interest, principal. cbn [loan_amount replace_loan_amount].
  repeat split; eauto.
Qed.

(** The same pass in root units. *)
Lemma schedule_step_ok self n_points strategy base remaining next payment :
  schedule_step self n_points strategy base remaining = Ok (next, payment) ->
  exists interest,
    interest_of self n_points remaining = Ok interest /\
    next = replace_loan_amount self (loan_amount next) /\
    units payment = units base /\
    root payment = (root base + root (strategy remaining))%Qc /\
    units (loan_amount next) = units (loan_amount remaining) /\
    root (loan_amount next)
    = (root (loan_amount remaining) - (root payment - root interest))%Qc.
Proof.
  intros H. apply schedule_step_inv in H.
  destruct H as (interest & principal & Ei & Ep & Epr & _ & Ea & Hn).
  exists interest. split; [exact Ei |]. split; [exact Hn |].
  apply qadd_ok in Ep. destruct Ep as (Up & Rp & _).
  rewrite root_qmul, root_one_month in Rp.
  apply qsub_ok in Epr. destruct Epr as (Upr & Rpr & _).
  apply qsub_ok in Ea. destruct Ea as (Ua & Ra & _).
  repeat split.
  - exact Up.
  - rewrite Rp. ring.
  - exact Ua.
  - rewrite Ra, Rpr. ring.
Qed.

(** The loop, one iteration unfolded. *)
Lemma schedule_loop_S fuel self n_points strategy base remaining :
  schedule_loop (S fuel) self n_points strategy base remaining =
  match qgt (loan_amount remaining) epsilon with
  | Raise e => ([], Raised e)
  | Ok false => ([], StopIteration)
  | Ok true =>
      match schedule_step self n_points strategy base remaining with
      | Raise e => ([], Raised e)
      | Ok (next, payment) =>
          ((next, payment)
             :: fst (schedule_loop fuel self n_points strategy base next),
           snd (schedule_loop fuel self n_points strategy base next))
      end
  end.
Proof.
  cbn [schedule_loop].
  destruct (qgt (loan_amount remaining) epsilon) as [[|]|]; try reflexivity.
  destruct (schedule_step self n_points strategy base remaining) as [[next p]|];
    try reflexivity.
  destruct (schedule_loop fuel self n_points strategy base next); reflexivity.
Qed.

(** A property of every yielded pair that each step establishes holds
    along the whole schedule. *)
Lemma schedule_loop_Forall (P : Mortgage * Quantity -> Prop)
      self n_points strategy base :
  (forall remaining next payment,
      schedule_step self n_points strategy base remaining = Ok (next, payment) ->
      P (next, payment)) ->
  forall fuel remaining,
    Forall P (fst (schedule_loop fuel self n_points strategy base remaining)).
Proof.
  intros HP. induction fuel as [| fuel IH]; intros remaining.
  - constructor.
  - rewrite schedule_loop_S.
    destruct (qgt (loan_amount remaining) epsilon) as [[|]|]; try constructor.
    destruct (schedule_step self n_points strategy base remaining)
      as [[next p]|] eqn:E; try constructor.
    + eapply HP. exact E.
    + apply IH.
Qed.

Lemma base_payment_units self n_points b :
  base_payment self n_points = Ok b -> units b = dollars_per_month.
Proof.
  unfold base_payment. intros H.
  do 6 ok_inv H. apply qto_ok in H. tauto.
Qed.

(** What [payment_schedule] hands to its loop. *)
Lemma payment_schedule_unfold fuel self n_points strategy :
  payment_schedule fuel self n_points strategy =
  match base_payment self n_points with
  | Raise e => ([], Raised e)
  | Ok b => schedule_loop fuel self n_points
                          (match strategy with None => no_overpayment | Some s => s end)
                          (qmul b one_month) self
  end.
Proof.
  unfold payment_schedule. destruct (base_payment self n_points); reflexivity.
Qed.

(** ** Frame: the yielded states *)

(** C8: every state yielded by [payment_schedule] carries the home value,
    duration, base rate, base closing costs, cost per point and rate
    reduction per point of the original loan; only [loan_amount] differs. *)
Theorem payment_schedule_frame fuel self n_points strategy :
  Forall (fun step => same_terms (fst step) self)
         (fst (payment_schedule fuel self n_points strategy)).
Proof.
  rewrite payment_schedule_unfold.
  destruct (base_payment self n_points) as [b|]; [| constructor].
  apply schedule_loop_Forall. intros remaining next payment H.
  apply schedule_step_ok in H. destruct H as (_ & _ & -> & _).
  cbn. repeat split.
Qed.

Example two_month_schedule :
  show_schedule (payment_schedule 5 two_month_loan no_points None)
  = ([((10100 # 201, dollars), (10201 # 201, dollars));
      ((0 # 1, dollars), (10201 # 201, dollars))], StopIteration).
Proof. vm_compute. reflexivity. Qed.

(** ** Dimension of the payments *)

Lemma payment_schedule_units fuel self n_points strategy :
  Forall (fun step => units (snd step) = dollars)
         (fst (payment_schedule fuel self n_points strategy)).
Proof.
  rewrite payment_schedule_unfold.
  destruct (base_payment self n_points) as [b|] eqn:B; [| constructor].
  apply schedule_loop_Forall. intros remaining next payment H.
  apply schedule_step_ok in H. destruct H as (_ & _ & _ & U & _).
  cbn [snd]. rewrite U. cbn [units qmul].
  rewrite (base_payment_units _ _ _ B). reflexivity.
Qed.

(** C9, as the code has it: every payment yielded by [payment_schedule] is
    a quantity in dollars, so of dimension money: the monthly base payment
    and the extra are each multiplied by one month before they are added. *)
Theorem payment_schedule_yields_money fuel self n_points strategy :
  Forall (fun step => units (snd step) = dollars /\
                      dimensionality (units (snd step)) = dim_money)
         (fst (payment_schedule fuel self n_points strategy)).
Proof.
  eapply Forall_impl; [| apply payment_schedule_units].
  intros step U. split; [exact U |]. rewrite U. reflexivity.
Qed.

(** C9 as stated fails: the payments of the two-month loan are not of
    dimension money per time. *)
Lemma payment_not_money_per_month :
  ~ Forall (fun step => dimensionality (units (snd step)) = dim_money_per_time)
           (fst (payment_schedule 5 two_month_loan no_points None)).
Proof.
  intros H.
  remember (payment_schedule 5 two_month_loan no_points None) as r eqn:E.
  vm_compute in E. subst r. cbn [fst] in H.
  apply Forall_inv in H. discriminate H.
Qed.

(** ** A strategy that pays nothing extra *)

Lemma qadd_zero (a x : Quantity) :
  compatible (units a) (units x) = true -> root x = 0%Qc -> qadd a x = Ok a.
Proof.
  intros C R. unfold qadd. rewrite qadd_sub_spec, C, R.
  destruct a as [m u]. cbn [magnitude units]. do 2 f_equal.
  field. apply factor_neq_0.
Qed.

Lemma dimensionality_mul_month (u : Units) :
  dimensionality u = dim_money_per_time ->
  dimensionality (units_mul u month) = dim_money.
Proof.
  destruct u as [a b c d e]. unfold dimensionality, dim_money_per_time, dim_money.
  cbn. intros H. injection H as -> H ->. f_equal. lia.
Qed.

(** With a base payment in dollars, a zero extra of dimension money per
    time leaves the payment equal to the base. *)
Lemma zero_extra_payment (base x : Quantity) :
  units base = dollars ->
  magnitude x = 0%Qc ->
  dimensionality (units x) = dim_money_per_time ->
  qadd base (qmul x one_month) = Ok base.
Proof.
  intros U M D. apply qadd_zero.
  - apply compatible_iff. rewrite U. cbn [units qmul one_month].
    rewrite (dimensionality_mul_month _ D). reflexivity.
  - rewrite root_qmul. unfold root at 1. rewrite M. ring.
Qed.

Lemma no_overpayment_zero : zero_strategy no_overpayment.
Proof. intros m. split; reflexivity. Qed.

Lemma schedule_step_zero self n_points s1 s2 base remaining :
  units base = dollars -> zero_strategy s1 -> zero_strategy s2 ->
  schedule_step self n_points s1 base remaining
  = schedule_step self n_points s2 base remaining.
Proof.
  intros U Z1 Z2. unfold schedule_step.
  destruct (Z1 remaining) as (M1 & D1). destruct (Z2 remaining) as (M2 & D2).
  rewrite (zero_extra_payment _ _ U M1 D1), (zero_extra_payment _ _ U M2 D2).
  reflexivity.
Qed.

Lemma schedule_loop_zero self n_points s1 s2 base :
  units base = dollars -> zero_strategy s1 -> zero_strategy s2 ->
  forall fuel remaining,
    schedule_loop fuel self n_points s1 base remaining
    = schedule_loop fuel self n_points s2 base remaining.
Proof.
  intros U Z1 Z2. induction fuel as [| fuel IH]; intros remaining.
  - reflexivity.
  - rewrite !schedule_loop_S.
    rewrite (schedule_step_zero self n_points s1 s2 base remaining U Z1 Z2).
    destruct (qgt (loan_amount remaining) epsilon) as [[|]|]; try reflexivity.
    destruct (schedule_step self n_points s2 base remaining) as [[next p]|];
      try reflexivity.
    rewrite IH. reflexivity.
Qed.

(** C5: a strategy that always returns a zero amount of money per time (in
    whatever compatible units) gives the very schedule that no strategy
    gives: the same states, the same payments, the same end, at every
    number of iterations. *)
Theorem zero_strategy_same_schedule (s : Strategy) fuel self n_points :
  zero_strategy s ->
  payment_schedule fuel self n_points (Some s)
  = payment_schedule fuel self n_points None.
Proof.
  intros Z. rewrite !payment_schedule_unfold.
  destruct (base_payment self n_points) as [b|] eqn:B; [| reflexivity].
  apply schedule_loop_zero; [| exact Z | exact no_overpayment_zero].
  cbn [units qmul]. rewrite (base_payment_units _ _ _ B). reflexivity.
Qed.

Lemma zero_strategy_same_schedule_witness :
  zero_strategy zero_per_year /\
  payment_schedule 5 two_month_loan no_points (Some zero_per_year)
  = payment_schedule 5 two_month_loan no_points None.
Proof.
  assert (Z : zero_strategy zero_per_year) by (intros m; split; reflexivity).
  split; [exact Z |].
  exact (zero_strategy_same_schedule zero_per_year 5 two_month_loan no_points Z).
Defined.

(** ** Conservation of the balance *)

Lemma schedule_loop_conservation self n_points strategy base :
  forall fuel remaining,
    let schedule :=
      fst (schedule_loop fuel self n_points strategy base remaining) in
    principal_sum self n_points remaining schedule
    = Ok (root (loan_amount remaining)
          - root (loan_amount (final_state remaining schedule)))%Qc.
Proof.
  induction fuel as [| fuel IH]; intros remaining; cbn zeta.
  - cbn. f_equal. ring.
  - rewrite schedule_loop_S.
    destruct (qgt (loan_amount remaining) epsilon) as [[|]|];
      try (cbn; f_equal; ring).
    destruct (schedule_step self n_points strategy base remaining)
      as [[next p]|] eqn:E; try (cbn; f_equal; ring).
    apply schedule_step_inv in E.
    destruct E as (interest & principal & Ei & _ & Epr & _ & Ea & _).
    cbn [fst principal_sum]. rewrite Ei. cbn [bind]. rewrite Epr. cbn [bind].
    specialize (IH next). cbn zeta in IH. rewrite IH. cbn [bind].
    apply qsub_ok in Ea. destruct Ea as (_ & Ra & _).
    f_equal.
    assert (L : final_state remaining
                  ((next, p) :: fst (schedule_loop fuel self n_points strategy base next))
                = final_state next
                    (fst (schedule_loop fuel self n_points strategy base next))).
    { unfold final_state. cbn [map fst].
      destruct (map fst (fst (schedule_loop fuel self n_points strategy base next)))
        as [| y l] eqn:M; [reflexivity |].
      change (last (next :: y :: l) remaining) with (last (y :: l) remaining).
      change (last (y :: l) remaining = last (y :: l) next).
      clear. revert y. induction l as [| z l IHl]; intros y; [reflexivity |].
      change (last (z :: l) remaining = last (z :: l) next). apply IHl. }
    rewrite L, Ra. ring.
Qed.

(** C4: along a schedule, the principal amounts (each step's payment minus
    that step's interest), summed in dollars, equal the original
    [loan_amount] minus the [loan_amount] of the final yielded state. *)
Theorem principal_sum_conservation fuel self n_points strategy :
  let schedule := fst (payment_schedule fuel self n_points strategy) in
  principal_sum self n_points self schedule
  = Ok (root (loan_amount self)
        - root (loan_amount (final_state self schedule)))%Qc.
Proof.
  cbn zeta. rewrite payment_schedule_unfold.
  destruct (base_payment self n_points) as [b|].
  - apply schedule_loop_conservation.
  - cbn. f_equal. ring.
Qed.

(** ** The effective rate *)

Lemma dimensionality_mul (u v : Units) :
  dimensionality (units_mul u v)
  = mkDim (d_money (dimensionality u) + d_money (dimensionality v))
          (d_time (dimensionality u) + d_time (dimensionality v))
          (d_point (dimensionality u) + d_point (dimensionality v)).
Proof. destruct u, v. unfold dimensionality; cbn. f_equal. lia. Qed.

Lemma compatible_of_dims (u v : Units) (d : Dim) :
  dimensionality u = d -> dimensionality v = d -> compatible u v = true.
Proof. intros H1 H2. apply compatible_iff. congruence. Qed.

Lemma effective_rate_defined self n_points :
  has_dim (base_rate self) dim_per_time ->
  has_dim (rate_reduction_per_point self) dim_per_time_point ->
  has_dim n_points dim_point ->
  exists rate,
    effective_rate self n_points = Ok rate /\
    units rate = units (base_rate self) /\
    root rate = (root (base_rate self)
                 - root (rate_reduction_per_point self) * root n_points)%Qc.
Proof.
  unfold has_dim. intros Hb Hr Hn. unfold effective_rate, qsub.
  rewrite qadd_sub_spec.
  assert (C : compatible (units (base_rate self))
                (units (qmul (rate_reduction_per_point self) n_points)) = true).
  { apply compatible_of_dims with (d := dim_per_time); [exact Hb |].
    cbn [units qmul]. rewrite dimensionality_mul, Hr, Hn. reflexivity. }
  rewrite C. eexists. split; [reflexivity |]. split; [reflexivity |].
  rewrite <- root_qmul. unfold root; cbn [magnitude units].
  field. apply factor_neq_0.
Qed.

(** C6, as the code has it: for a well-dimensioned loan the effective rate
    is the base rate less the reduction per point times the number of
    points, and when the reduction per point is not negative it does not
    increase with the number of points. *)
Theorem effective_rate_monotone self n1 n2 :
  valid_loan self ->
  has_dim n1 dim_point -> has_dim n2 dim_point ->
  (0 <= root (rate_reduction_per_point self))%Qc ->
  (root n1 <= root n2)%Qc ->
  exists r1 r2,
    effective_rate self n1 = Ok r1 /\
    effective_rate self n2 = Ok r2 /\
    root r1 = (root (base_rate self)
               - root (rate_reduction_per_point self) * root n1)%Qc /\
    root r2 = (root (base_rate self)
               - root (rate_reduction_per_point self) * root n2)%Qc /\
    (root r2 <= root r1)%Qc.
Proof.
  intros (W & _) H1 H2 Hpos Hle.
  destruct W as (_ & _ & _ & Hb & _ & _ & Hr).
  destruct (effective_rate_defined self n1 Hb Hr H1) as (r1 & E1 & _ & R1).
  destruct (effective_rate_defined self n2 Hb Hr H2) as (r2 & E2 & _ & R2).
  exists r1, r2. repeat split; try assumption.
  rewrite R1, R2. revert Hpos Hle. qc2q. nra.
Qed.

Lemma default_mortgage_valid : valid_loan default_mortgage.
Proof.
  repeat split; try reflexivity; intro H; discriminate H.
Qed.

Lemma effective_rate_monotone_witness :
  exists r1 r2,
    effective_rate default_mortgage no_points = Ok r1 /\
    effective_rate default_mortgage one_point = Ok r2 /\
    root r1 = (root (base_rate default_mortgage)
               - root (rate_reduction_per_point default_mortgage)
                 * root no_points)%Qc /\
    root r2 = (root (base_rate default_mortgage)
               - root (rate_reduction_per_point default_mortgage)
                 * root one_point)%Qc /\
    (root r2 <= root r1)%Qc.
Proof.
  apply (effective_rate_monotone default_mortgage no_points one_point).
  - exact default_mortgage_valid.
  - reflexivity.
  - reflexivity.
  - intro H; discriminate H.
  - intro H; discriminate H.
Defined.

(** C6 as stated fails: a loan that meets every listed invariant but has a
    negative reduction per point has an effective rate that rises with
    the number of points. *)
Lemma effective_rate_not_monotone :
  valid_loan rate_raising_loan /\
  has_dim no_points dim_point /\ has_dim one_point dim_point /\
  (root no_points <= root one_point)%Qc /\
  match effective_rate rate_raising_loan no_points,
        effective_rate rate_raising_loan one_point with
  | Ok r1, Ok r2 => ~ (root r2 <= root r1)%Qc
  | _, _ => False
  end.
Proof.
  split; [| split; [| split; [| split]]].
  - repeat split; try reflexivity; intro H; discriminate H.
  - reflexivity.
  - reflexivity.
  - intro H; discriminate H.
  - vm_compute. intros H. apply H. reflexivity.
Qed.

(** ** The fixed payment *)

Lemma factor_month : factor month = 1%Qc.
Proof. apply Qc_is_canon. reflexivity. Qed.

Lemma factor_per_month : factor per_month = 1%Qc.
Proof. apply Qc_is_canon. reflexivity. Qed.

Lemma factor_dollars_per_month : factor dollars_per_month = 1%Qc.
Proof. apply Qc_is_canon. reflexivity. Qed.

Lemma root_dollars_per_month (x : Qc) : root (mkQ x dollars_per_month) = x.
Proof.
  unfold root. cbn [magnitude units]. rewrite factor_dollars_per_month. ring.
Qed.

Lemma dimensionality_div (u v : Units) :
  dimensionality (units_div u v)
  = mkDim (d_money (dimensionality u) - d_money (dimensionality v))
          (d_time (dimensionality u) - d_time (dimensionality v))
          (d_point (dimensionality u) - d_point (dimensionality v)).
Proof. destruct u, v. unfold dimensionality; cbn. f_equal. lia. Qed.

Lemma n_payments_defined self :
  has_dim (duration self) dim_time ->
  n_payments self = Ok (Qceiling (root (duration self))).
Proof.
  unfold has_dim. intros Hd. unfold n_payments, qdiv.
  replace (Qc_eqb (magnitude one_month) 0) with false by reflexivity.
  cbn [bind]. unfold py_ceil. cbn [units].
  assert (C : compatible (units_div (units (duration self)) (units one_month))
                dimensionless = true).
  { apply compatible_iff. rewrite dimensionality_div, Hd. reflexivity. }
  rewrite C. do 2 f_equal. unfold root; cbn [magnitude units].
  rewrite factor_div. change (units one_month) with month.
  change (magnitude one_month) with 1%Qc. rewrite factor_month.
  f_equal. field. intro H; discriminate H.
Qed.

Lemma monthly_rate_defined self n_points rate :
  effective_rate self n_points = Ok rate ->
  has_dim rate dim_per_time ->
  exists monthly_rate,
    qto rate percent_per_month = Ok monthly_rate /\
    units monthly_rate = percent_per_month /\
    root monthly_rate = root rate.
Proof.
  unfold has_dim. intros E D.
  assert (C : compatible (units rate) percent_per_month = true).
  { apply compatible_iff. rewrite D. reflexivity. }
  rewrite (qto_compatible _ _ C). eexists. split; [reflexivity |].
  split; [reflexivity |]. unfold root; cbn [magnitude units].
  field. apply factor_neq_0.
Qed.

(** The fixed payment in closed form, wherever the division of line 55 is
    defined. *)
Lemma base_payment_closed self n_points :
  well_dimensioned self -> has_dim n_points dim_point ->
  (1 <= payments_count self)%Z ->
  compounding_of self n_points <> 1%Qc ->
  n_payments self = Ok (Qceiling (root (duration self))) /\
  base_payment self n_points
  = Ok (mkQ (root (loan_amount self) * monthly_fraction self n_points
             * compounding_of self n_points
             / (compounding_of self n_points - 1))%Qc
            dollars_per_month).
Proof.
  intros W Hn HN Hc.
  destruct W as (Hl & _ & Hd & Hb & _ & _ & Hr).
  pose proof (n_payments_defined self Hd) as EN.
  split; [exact EN |].
  destruct (effective_rate_defined self n_points Hb Hr Hn) as (rate & E & U & _).
  assert (Drate : has_dim rate dim_per_time) by (unfold has_dim; rewrite U; exact Hb).
  destruct (monthly_rate_defined self n_points rate E Drate) as (mr & Em & Um & Rm).
  unfold compounding_of, payments_count, monthly_fraction in *.
  rewrite EN in *. rewrite E in *.
  set (N := Qceiling (root (duration self))) in *.
  unfold base_payment. rewrite E. cbn [bind]. rewrite Em. cbn [bind].
  assert (C1 : compatible (units mr) per_month = true).
  { rewrite Um. reflexivity. }
  rewrite (qto_compatible _ _ C1). cbn [bind magnitude]. rewrite EN. cbn [bind].
  rewrite factor_per_month, Rm.
  replace (root rate / 1)%Qc with (root rate) by (field; intro H; discriminate H).
  unfold py_pow.
  replace (N <? 0)%Z with false by (symmetry; apply Z.ltb_ge; lia).
  cbn [andb bind].
  set (c := Q2Qc (Qpower (1 + root rate)%Qc N)) in *.
  unfold qdiv_scalar.
  assert (Z0 : Qc_eqb (c - 1) 0 = false).
  { apply Qc_eqb_neq. intros H. apply Hc.
    replace c with ((c - 1) + 1)%Qc by ring. rewrite H. ring. }
  rewrite Z0. cbn [bind].
  assert (C2 : compatible (units_mul (units (loan_amount self)) (units mr))
                 dollars_per_month = true).
  { apply compatible_iff. rewrite dimensionality_mul, Hl, Um. reflexivity. }
  unfold qto. cbn [units qscale qmul magnitude]. rewrite C2.
  do 2 f_equal. rewrite factor_dollars_per_month, factor_mul.
  unfold root in Rm. unfold root at 2. rewrite <- Rm.
  unfold root. field.
  split; [| intro H; discriminate H].
  intros H. apply Qc_eqb_neq in Z0. apply Z0. exact H.
Qed.

(** A positive rate compounds above one. *)
Lemma compounding_gt_1 (r : Qc) (n : Z) :
  (0 < r)%Qc -> (1 <= n)%Z -> (1 < Q2Qc (Qpower (1 + r)%Qc n))%Qc.
Proof.
  intros Hr Hn. unfold Qclt. rewrite !this_Q2Qc.
  apply Qpower_1_lt; [| lia].
  revert Hr. qc2q. lra.
Qed.

(** C3, as the code has it: with [N >= 1] payments, [N] being the duration
    divided by one month and rounded up, and a monthly rate [r] for which
    [(1 + r)^N] is not one, [base_payment] is
    [loan_amount * r * (1 + r)^N / ((1 + r)^N - 1)] dollars per month. *)
Theorem base_payment_formula self n_points :
  well_dimensioned self -> has_dim n_points dim_point ->
  (1 <= payments_count self)%Z ->
  compounding_of self n_points <> 1%Qc ->
  n_payments self = Ok (Qceiling (root (duration self))) /\
  base_payment self n_points
  = Ok (mkQ (root (loan_amount self) * monthly_fraction self n_points
             * compounding_of self n_points
             / (compounding_of self n_points - 1))%Qc
            dollars_per_month).
Proof. exact (base_payment_closed self n_points). Qed.

Lemma two_month_loan_well_dimensioned : well_dimensioned two_month_loan.
Proof. repeat split. Qed.

Lemma base_payment_formula_witness :
  n_payments two_month_loan = Ok (Qceiling (root (duration two_month_loan))) /\
  base_payment two_month_loan no_points
  = Ok (mkQ (root (loan_amount two_month_loan)
             * monthly_fraction two_month_loan no_points
             * compounding_of two_month_loan no_points
             / (compounding_of two_month_loan no_points - 1))%Qc
            dollars_per_month).
Proof.
  apply (base_payment_formula two_month_loan no_points).
  - exact two_month_loan_well_dimensioned.
  - reflexivity.
  - vm_compute. intro H; discriminate H.
  - intro H. apply (f_equal this) in H. vm_compute in H. discriminate H.
Defined.

(** C3 as stated fails: two payments and a monthly rate of minus two, which
    is not zero, and [base_payment] divides by zero. *)
Lemma base_payment_divides_by_zero :
  n_payments cancelling_loan = Ok 2%Z /\
  monthly_fraction cancelling_loan no_points <> 0%Qc /\
  this (monthly_fraction cancelling_loan no_points) = (-2 # 1)%Q /\
  base_payment cancelling_loan no_points = Raise ZeroDivisionError.
Proof.
  split; [vm_compute; reflexivity |].
  split; [| split; vm_compute; reflexivity].
  intro H. apply (f_equal this) in H. vm_compute in H. discriminate H.
Qed.

(** ** The total cost *)

Lemma qadd_defined (a b : Quantity) :
  compatible (units a) (units b) = true ->
  exists c, qadd a b = Ok c /\ units c = units a /\
            root c = (root a + root b)%Qc.
Proof.
  intros C. destruct (qadd a b) as [c|e] eqn:E.
  - exists c. apply qadd_ok in E. tauto.
  - unfold qadd in E. rewrite qadd_sub_spec, C in E. discriminate E.
Qed.

Lemma qsub_defined (a b : Quantity) :
  compatible (units a) (units b) = true ->
  exists c, qsub a b = Ok c /\ units c = units a /\
            root c = (root a - root b)%Qc.
Proof.
  intros C. destruct (qsub a b) as [c|e] eqn:E.
  - exists c. apply qsub_ok in E. tauto.
  - unfold qsub in E. rewrite qadd_sub_spec, C in E. discriminate E.
Qed.

(** Where the base payment is defined, the number of points came in
    discount points. *)
Lemma base_payment_points self n_points :
  well_dimensioned self ->
  is_ok (base_payment self n_points) = true ->
  has_dim n_points dim_point.
Proof.
  intros (_ & _ & _ & Hb & _ & _ & Hr) H.
  destruct (base_payment self n_points) as [b|] eqn:B; [| discriminate H].
  unfold base_payment in B. ok_inv B. clear B.
  apply qsub_ok in E. destruct E as (_ & _ & C).
  apply compatible_iff in C. cbn [units qmul] in C.
  unfold has_dim in *. rewrite dimensionality_mul, Hb, Hr in C.
  destruct (dimensionality (units n_points)) as [a t p].
  unfold dim_per_time, dim_per_time_point in C. cbn [d_money d_time d_point] in C.
  pose proof (f_equal d_money C) as Ha.
  pose proof (f_equal d_time C) as Ht.
  pose proof (f_equal d_point C) as Hp.
  cbn [d_money d_time d_point] in Ha, Ht, Hp.
  unfold dim_point. f_equal; lia.
Qed.

Lemma finite_schedule_base_payment fuel self n_points strategy schedule :
  payment_schedule fuel self n_points strategy = (schedule, StopIteration) ->
  is_ok (base_payment self n_points) = true.
Proof.
  rewrite payment_schedule_unfold.
  destruct (base_payment self n_points); [reflexivity | discriminate].
Qed.

(** Down payment plus closing costs, for a well-dimensioned loan. *)
Lemma upfront_defined self n_points :
  well_dimensioned self -> has_dim n_points dim_point ->
  exists d c dc,
    down_payment self = Ok d /\
    actual_closing_costs self n_points = Ok c /\
    qadd d c = Ok dc /\
    has_dim dc dim_money /\
    units dc = units (home_value self) /\
    root dc = (root d + root c)%Qc.
Proof.
  unfold has_dim. intros (Hl & Hh & _ & _ & Hc & Hp & _) Hn.
  destruct (qsub_defined (home_value self) (loan_amount self)) as (d & Ed & Ud & _).
  { eapply compatible_of_dims; eassumption. }
  destruct (qadd_defined (base_closing_costs self)
              (qmul (qmul (cost_per_point self) (loan_amount self)) n_points))
    as (c & Ec & Uc & _).
  { apply compatible_of_dims with (d := dim_money); [exact Hc |].
    cbn [units qmul]. rewrite !dimensionality_mul, Hp, Hl, Hn. reflexivity. }
  destruct (qadd_defined d c) as (dc & Edc & Udc & Rdc).
  { apply compatible_of_dims with (d := dim_money); congruence. }
  exists d, c, dc. repeat split; try assumption; congruence.
Qed.

Lemma add_zero_int (a : Quantity) : mkQ (magnitude a + 0)%Qc (units a) = a.
Proof. destruct a as [m u]. cbn. f_equal. ring. Qed.

(** Python's [sum] over payments that are all in dollars. *)
Lemma sum_from_dollars (l : list Quantity) :
  Forall (fun q => units q = dollars) l ->
  forall a, units a = dollars ->
    exists s, sum_from (PQty a) l = Ok (PQty s) /\ units s = dollars /\
              root s = (root a + total_payments l)%Qc.
Proof.
  induction 1 as [| q l Hq Hl IH]; intros a Ua.
  - exists a. cbn. repeat split; [exact Ua | ring].
  - cbn [sum_from radd].
    destruct (qadd_defined a q) as (s & Es & Us & Rs).
    { apply compatible_iff. congruence. }
    rewrite Es. cbn [bind].
    destruct (IH s) as (t & Et & Ut & Rt); [congruence |].
    exists t. repeat split; try assumption.
    rewrite Rt, Rs. cbn [total_payments fold_right]. fold (total_payments l). ring.
Qed.

Lemma py_sum_dollars (l : list Quantity) (dc : Quantity) :
  Forall (fun q => units q = dollars) l ->
  has_dim dc dim_money ->
  exists s total,
    py_sum l = Ok s /\ add_pyval dc s = Ok total /\
    units total = units dc /\
    root total = (root dc + total_payments l)%Qc.
Proof.
  intros Hl Hd. destruct Hl as [| q l Hq Hl].
  - exists PInt0, dc. cbn. rewrite add_zero_int. repeat split. ring.
  - unfold py_sum. cbn [sum_from radd bind]. rewrite add_zero_int.
    destruct (sum_from_dollars l Hl q Hq) as (s & Es & Us & Rs).
    destruct (qadd_defined dc s) as (total & Et & Ut & Rt).
    { apply compatible_iff. rewrite Us. exact Hd. }
    exists (PQty s), total. cbn [add_pyval]. repeat split; try assumption.
    rewrite Rt, Rs. cbn [total_payments fold_right]. fold (total_payments l). ring.
Qed.

(** C2: when the schedule is finite, [total_cost] returns the down payment
    plus the closing costs plus the sum of all yielded payments, paired
    with the number of yielded steps as a quantity in months. *)
Theorem total_cost_spec fuel self n_points strategy schedule :
  well_dimensioned self ->
  payment_schedule fuel self n_points strategy = (schedule, StopIteration) ->
  exists d c total,
    down_payment self = Ok d /\
    actual_closing_costs self n_points = Ok c /\
    total_cost fuel self n_points strategy
    = Some (Ok (total, mkQ (Qz (Z.of_nat (length schedule))) month)) /\
    units total = units (home_value self) /\
    root total = (root d + root c + total_payments (map snd schedule))%Qc.
Proof.
  intros W E.
  assert (Hn : has_dim n_points dim_point).
  { apply (base_payment_points self n_points W).
    exact (finite_schedule_base_payment _ _ _ _ _ E). }
  destruct (upfront_defined self n_points W Hn)
    as (d & c & dc & Ed & Ec & Edc & Ddc & Udc & Rdc).
  assert (Hl : Forall (fun q => units q = dollars) (map snd schedule)).
  { apply Forall_map.
    pose proof (payment_schedule_units fuel self n_points strategy) as F.
    rewrite E in F. exact F. }
  destruct (py_sum_dollars (map snd schedule) dc Hl Ddc)
    as (s & total & Es & Et & Ut & Rt).
  exists d, c, total. split; [exact Ed |]. split; [exact Ec |].
  split; [| split].
  - unfold total_cost. rewrite E, Ed, Ec. cbn [bind]. rewrite Edc. cbn [bind].
    rewrite Es. cbn [bind]. rewrite Et. reflexivity.
  - congruence.
  - rewrite Rt, Rdc. reflexivity.
Qed.

Lemma two_month_steps_finite :
  payment_schedule 5 two_month_loan no_points None
  = (two_month_steps, StopIteration).
Proof.
  unfold two_month_steps.
  rewrite (surjective_pairing (payment_schedule 5 two_month_loan no_points None))
    at 1.
  apply f_equal. vm_compute. reflexivity.
Qed.

Lemma total_cost_spec_witness :
  exists d c total,
    down_payment two_month_loan = Ok d /\
    actual_closing_costs two_month_loan no_points = Ok c /\
    total_cost 5 two_month_loan no_points None
    = Some (Ok (total, mkQ (Qz (Z.of_nat (length two_month_steps))) month)) /\
    units total = units (home_value two_month_loan) /\
    root total
    = (root d + root c + total_payments (map snd two_month_steps))%Qc.
Proof.
  apply (total_cost_spec 5 two_month_loan no_points None two_month_steps).
  - exact two_month_loan_well_dimensioned.
  - exact two_month_steps_finite.
Defined.

(** ** A loan that is already paid off *)

Lemma qgt_epsilon self :
  has_dim (loan_amount self) dim_money ->
  qgt (loan_amount self) epsilon
  = Ok (Qc_ltb (Q2Qc (1 # 10)) (root (loan_amount self))).
Proof.
  unfold has_dim. intros H. rewrite qgt_spec.
  replace (compatible (units (loan_amount self)) (units epsilon)) with true
    by (symmetry; apply compatible_iff; rewrite H; reflexivity).
  reflexivity.
Qed.

Lemma paid_off_schedule fuel self n_points strategy :
  has_dim (loan_amount self) dim_money ->
  (root (loan_amount self) <= Q2Qc (1 # 10))%Qc ->
  is_ok (base_payment self n_points) = true ->
  payment_schedule (S fuel) self n_points strategy = ([], StopIteration).
Proof.
  intros Hl Hle Hb. rewrite payment_schedule_unfold.
  destruct (base_payment self n_points) as [b|]; [| discriminate Hb].
  rewrite schedule_loop_S, (qgt_epsilon self Hl).
  replace (Qc_ltb (Q2Qc (1 # 10)) (root (loan_amount self))) with false
    by (symmetry; apply Qc_ltb_ge; exact Hle).
  reflexivity.
Qed.

(** C10, as the code has it: for a loan whose [loan_amount] is at most 0.10
    dollars and whose base payment is defined, [payment_schedule] yields
    nothing and [total_cost] returns the down payment plus the closing
    costs, with zero months. *)
Theorem paid_off_costs fuel self n_points strategy :
  well_dimensioned self ->
  (root (loan_amount self) <= Q2Qc (1 # 10))%Qc ->
  is_ok (base_payment self n_points) = true ->
  payment_schedule (S fuel) self n_points strategy = ([], StopIteration) /\
  exists d c total,
    down_payment self = Ok d /\
    actual_closing_costs self n_points = Ok c /\
    qadd d c = Ok total /\
    total_cost (S fuel) self n_points strategy
    = Some (Ok (total, mkQ (Qz 0) month)).
Proof.
  intros W Hle Hb.
  pose proof (base_payment_points self n_points W Hb) as Hn.
  assert (E : payment_schedule (S fuel) self n_points strategy
              = ([], StopIteration)).
  { apply paid_off_schedule; try assumption. apply W. }
  split; [exact E |].
  destruct (upfront_defined self n_points W Hn)
    as (d & c & dc & Ed & Ec & Edc & _).
  exists d, c, dc. repeat split; try assumption.
  unfold total_cost. rewrite E, Ed, Ec. cbn [bind]. rewrite Edc.
  cbn [bind map py_sum sum_from add_pyval length]. rewrite add_zero_int.
  reflexivity.
Qed.

Lemma paid_off_costs_witness :
  payment_schedule 1 nearly_paid_loan no_points (Some ten_extra)
  = ([], StopIteration) /\
  exists d c total,
    down_payment nearly_paid_loan = Ok d /\
    actual_closing_costs nearly_paid_loan no_points = Ok c /\
    qadd d c = Ok total /\
    total_cost 1 nearly_paid_loan no_points (Some ten_extra)
    = Some (Ok (total, mkQ (Qz 0) month)).
Proof.
  apply (paid_off_costs 0 nearly_paid_loan no_points (Some ten_extra)).
  - repeat split.
  - intro H; discriminate H.
  - vm_compute. reflexivity.
Defined.

(** C10 as stated fails: a paid-off loan at a rate of zero yields nothing,
    but the generator raises on the division by zero of [base_payment],
    and so does [total_cost]. *)
Lemma paid_off_zero_rate_raises :
  (root (loan_amount zero_rate_paid_loan) <= Q2Qc (1 # 10))%Qc /\
  payment_schedule 5 zero_rate_paid_loan no_points None
  = ([], Raised ZeroDivisionError) /\
  total_cost 5 zero_rate_paid_loan no_points None
  = Some (Raise ZeroDivisionError).
Proof.
  split; [intro H; discriminate H |].
  split; vm_compute; reflexivity.
Qed.

(** ** Paying extra *)

Lemma interest_of_ok self n_points remaining interest :
  interest_of self n_points remaining = Ok interest ->
  root interest
  = (root (loan_amount remaining) * monthly_fraction self n_points)%Qc /\
  units interest
  = units_mul (units_mul (units (loan_amount remaining)) month) percent_per_month.
Proof.
  unfold interest_of, monthly_fraction. intros H.
  ok_inv H. rename x into rate, E into Er.
  ok_inv H. rename x into mr, E into Em.
  injection H as <-. rewrite Er.
  apply qto_ok in Em. destruct Em as (Um & Rm & _).
  split.
  - rewrite !root_qmul, root_one_month, Rm. ring.
  - cbn [units qmul]. rewrite Um. reflexivity.
Qed.

(** The interest is defined or not whatever the balance it is charged on. *)
Lemma interest_of_transfer self n_points r0 r1 i0 :
  interest_of self n_points r0 = Ok i0 ->
  units (loan_amount r1) = units (loan_amount r0) ->
  exists i1, interest_of self n_points r1 = Ok i1 /\ units i1 = units i0.
Proof.
  unfold interest_of. intros H U.
  ok_inv H. rename x into rate, E into Er.
  ok_inv H. rename x into mr, E into Em.
  injection H as <-. rewrite Er. cbn [bind]. rewrite Em. cbn [bind].
  eexists. split; [reflexivity |]. cbn [units qmul]. rewrite U. reflexivity.
Qed.

Lemma qgt_defined (a b : Quantity) :
  compatible (units a) (units b) = true ->
  qgt a b = Ok (Qc_ltb (root b) (root a)).
Proof. intros C. rewrite qgt_spec, C. reflexivity. Qed.

Lemma qgt_ok (a b : Quantity) (r : bool) :
  qgt a b = Ok r ->
  compatible (units a) (units b) = true /\ r = Qc_ltb (root b) (root a).
Proof.
  rewrite qgt_spec. destruct (compatible (units a) (units b)); [| discriminate].
  intros H. injection H as <-. split; reflexivity.
Qed.

(** When the loop body goes through. *)
Lemma schedule_step_defined self n_points strategy base remaining interest :
  interest_of self n_points remaining = Ok interest ->
  compatible (units base) (units_mul (units (strategy remaining)) month) = true ->
  compatible (units base) (units interest) = true ->
  compatible (units base) (units (loan_amount remaining)) = true ->
  exists next payment,
    schedule_step self n_points strategy base remaining = Ok (next, payment).
Proof.
  intros Ei C1 C2 C3. unfold schedule_step. rewrite Ei. cbn [bind].
  destruct (qadd_defined base (qmul (strategy remaining) one_month) C1)
    as (pay & Ep & Up & _).
  rewrite Ep. cbn [bind].
  destruct (qsub_defined pay interest) as (pr & Epr & Upr & _).
  { rewrite Up. exact C2. }
  rewrite Epr. cbn [bind].
  rewrite (qgt_defined pr (loan_amount remaining))
    by (rewrite Upr, Up; exact C3).
  cbn [bind]. rewrite (qsub_qadd_cancel _ _ _ Epr).
  destruct (qsub_defined (loan_amount remaining) pr) as (am & Ea & _).
  { rewrite compatible_sym, Upr, Up. exact C3. }
  destruct (Qc_ltb (root (loan_amount remaining)) (root pr));
    cbn [bind]; rewrite Ea; cbn [bind]; eauto.
Qed.

(** The units a successful pass requires to agree. *)
Lemma schedule_step_compatible self n_points strategy base remaining next payment :
  schedule_step self n_points strategy base remaining = Ok (next, payment) ->
  exists interest,
    interest_of self n_points remaining = Ok interest /\
    compatible (units base) (units interest) = true /\
    compatible (units base) (units (loan_amount remaining)) = true.
Proof.
  intros H. apply schedule_step_inv in H.
  destruct H as (interest & principal & Ei & Ep & Epr & (over & Eo) & _).
  exists interest. split; [exact Ei |].
  apply qadd_ok in Ep. destruct Ep as (Up & _).
  apply qsub_ok in Epr. destruct Epr as (Upr & _ & Cpr).
  apply qgt_ok in Eo. destruct Eo as (Co & _).
  split; congruence.
Qed.

(** The balance after one pass, in dollars. *)
Lemma schedule_step_balance self n_points strategy base remaining next payment :
  schedule_step self n_points strategy base remaining = Ok (next, payment) ->
  units (loan_amount next) = units (loan_amount remaining) /\
  root (loan_amount next)
  = (root (loan_amount remaining) * (1 + monthly_fraction self n_points)
     - root base - root (strategy remaining))%Qc.
Proof.
  intros H. apply schedule_step_ok in H.
  destruct H as (interest & Ei & _ & _ & Rp & Un & Rn).
  apply interest_of_ok in Ei. destruct Ei as (Ri & _).
  split; [exact Un |]. rewrite Rn, Rp, Ri. ring.
Qed.

Lemma schedule_loop_finished fuel self n_points strategy base remaining :
  snd (schedule_loop fuel self n_points strategy base remaining) = StopIteration ->
  schedule_loop fuel self n_points strategy base remaining
  = (fst (schedule_loop fuel self n_points strategy base remaining),
     StopIteration).
Proof. intros <-. apply surjective_pairing. Qed.

(** A run that starts lower and pays a constant extra stops no later. *)
Lemma schedule_loop_compare self n_points (x base : Quantity) :
  compatible (units base) (units_mul (units x) month) = true ->
  (0 <= root x)%Qc ->
  (0 <= 1 + monthly_fraction self n_points)%Qc ->
  forall fuel r0 r1 l0,
    units (loan_amount r1) = units (loan_amount r0) ->
    (root (loan_amount r1) <= root (loan_amount r0))%Qc ->
    schedule_loop fuel self n_points no_overpayment base r0
    = (l0, StopIteration) ->
    exists l1,
      schedule_loop fuel self n_points (constant_strategy x) base r1
      = (l1, StopIteration) /\
      (length l1 <= length l0)%nat.
Proof.
  intros Cx Hx Hr. induction fuel as [| fuel IH]; intros r0 r1 l0 U Hle H.
  - discriminate H.
  - rewrite schedule_loop_S in *.
    destruct (qgt (loan_amount r0) epsilon) as [g0|] eqn:G0; [| discriminate H].
    apply qgt_ok in G0. destruct G0 as (C0 & ->).
    rewrite (qgt_defined (loan_amount r1) epsilon) by (rewrite U; exact C0).
    destruct (Qc_ltb (root epsilon) (root (loan_amount r1))) eqn:G1.
    2:{ exists []. split; [reflexivity | cbn; lia]. }
    assert (G0 : Qc_ltb (root epsilon) (root (loan_amount r0)) = true).
    { apply Qc_ltb_lt. apply Qc_ltb_lt in G1. revert G1 Hle. qc2q. lra. }
    rewrite G0 in H.
    destruct (schedule_step self n_points no_overpayment base r0)
      as [[n0 p0]|] eqn:S0; [| discriminate H].
    injection H as <- Hs.
    destruct (schedule_step_compatible _ _ _ _ _ _ _ S0) as (i0 & Ei0 & Ci & Cl).
    destruct (interest_of_transfer self n_points r0 r1 i0 Ei0 U) as (i1 & Ei1 & Ui1).
    destruct (schedule_step_defined self n_points (constant_strategy x) base r1 i1)
      as (n1 & p1 & S1); try assumption; try congruence.
    rewrite S1.
    apply schedule_step_balance in S0. destruct S0 as (U0 & R0).
    pose proof (schedule_step_balance _ _ _ _ _ _ _ S1) as (U1 & R1).
    destruct (IH n0 n1 (fst (schedule_loop fuel self n_points no_overpayment base n0)))
      as (l1 & E1 & L1).
    + congruence.
    + rewrite R0, R1. unfold constant_strategy.
      replace (root (no_overpayment r0)) with 0%Qc
        by (unfold no_overpayment, root; cbn; ring).
      revert Hx Hr Hle. qc2q. nra.
    + apply schedule_loop_finished. exact Hs.
    + rewrite E1. exists ((n1, p1) :: l1). split; [reflexivity |].
      cbn [length fst]. lia.
Qed.

(** C7, as the code has it: where the schedule without a strategy is
    finite and the monthly rate is at least minus one, a constant extra
    payment that is not negative gives a finite schedule with at most as
    many steps. *)
Theorem overpayment_never_longer fuel self n_points (x : Quantity) baseline :
  has_dim x dim_money_per_time ->
  (0 <= root x)%Qc ->
  (0 <= 1 + monthly_fraction self n_points)%Qc ->
  payment_schedule fuel self n_points None = (baseline, StopIteration) ->
  exists schedule,
    payment_schedule fuel self n_points (Some (constant_strategy x))
    = (schedule, StopIteration) /\
    (length schedule <= length baseline)%nat.
Proof.
  intros Dx Hx Hr. rewrite !payment_schedule_unfold.
  destruct (base_payment self n_points) as [b|] eqn:B; [| discriminate].
  intros H.
  apply (schedule_loop_compare self n_points x (qmul b one_month))
    with (r0 := self) (l0 := baseline); try assumption.
  - apply compatible_iff. cbn [units qmul].
    rewrite (base_payment_units _ _ _ B), (dimensionality_mul_month _ Dx).
    reflexivity.
  - reflexivity.
  - apply Qcle_refl.
Qed.

Lemma overpayment_never_longer_witness :
  exists schedule,
    payment_schedule 5 two_month_loan no_points
                     (Some (constant_strategy (mkQ (Qz 10) dollars_per_month)))
    = (schedule, StopIteration) /\
    (length schedule <= length two_month_steps)%nat.
Proof.
  apply (overpayment_never_longer 5 two_month_loan no_points
           (mkQ (Qz 10) dollars_per_month) two_month_steps).
  - reflexivity.
  - intro H; discriminate H.
  - intro H; discriminate H.
  - exact two_month_steps_finite.
Defined.

(** C7 as stated fails: ten dollars more every month on the two-month loan
    still takes two steps, as many as without it. *)
Lemma overpayment_not_strictly_shorter :
  (0 < root (mkQ (Qz 10) dollars_per_month))%Qc /\
  snd (payment_schedule 5 two_month_loan no_points None) = StopIteration /\
  snd (payment_schedule 5 two_month_loan no_points
         (Some (constant_strategy (mkQ (Qz 10) dollars_per_month))))
  = StopIteration /\
  ~ (length (fst (payment_schedule 5 two_month_loan no_points
                    (Some (constant_strategy (mkQ (Qz 10) dollars_per_month)))))
     < length (fst (payment_schedule 5 two_month_loan no_points None)))%nat.
Proof.
  split; [reflexivity |].
  split; [vm_compute; reflexivity |].
  split; [vm_compute; reflexivity |].
  vm_compute. lia.
Qed.

(** ** Termination *)

Lemma Qz_succ (k : nat) : Qz (Z.of_nat (S k)) = (Qz (Z.of_nat k) + 1)%Qc.
Proof.
  unfold Qz. apply Qc_is_canon. rewrite this_plus, !this_Q2Qc.
  rewrite Nat2Z.inj_succ. unfold Z.succ. rewrite inject_Z_plus. reflexivity.
Qed.


(** Where the loop stops, the balance is at most ten cents. *)
Lemma schedule_loop_final self n_points strategy base :
  forall fuel remaining l,
    schedule_loop fuel self n_points strategy base remaining
    = (l, StopIteration) ->
    (root (loan_amount (final_state remaining l)) <= root epsilon)%Qc.
Proof.
  induction fuel as [| fuel IH]; intros remaining l H.
  - discriminate H.
  - rewrite schedule_loop_S in H.
    destruct (qgt (loan_amount remaining) epsilon) as [g|] eqn:G;
      [| discriminate H].
    apply qgt_ok in G. destruct G as (_ & ->).
    destruct (Qc_ltb (root epsilon) (root (loan_amount remaining))) eqn:G.
    + destruct (schedule_step self n_points strategy base remaining)
        as [[next p]|]; [| discriminate H].
      injection H as <- Hs. apply schedule_loop_finished in Hs.
      apply IH in Hs.
      assert (L : forall (a b : Mortgage) (t : list (Mortgage * Quantity)),
                 final_state a ((b, p) :: t) = final_state b t).
      { intros a b t. unfold final_state. cbn [map fst].
        destruct (map fst t) as [| y u]; [reflexivity |].
        change (last (y :: u) a = last (y :: u) b).
        revert y. induction u as [| z u IHu]; intros y; [reflexivity |].
        change (last (z :: u) a = last (z :: u) b). apply IHu. }
      rewrite L. exact Hs.
    + injection H as <-. apply Qc_ltb_ge in G. exact G.
Qed.


Lemma interest_of_defined self n_points remaining :
  well_dimensioned self -> has_dim n_points dim_point ->
  exists interest, interest_of self n_points remaining = Ok interest.
Proof.
  intros (_ & _ & _ & Hb & _ & _ & Hr) Hn.
  destruct (effective_rate_defined self n_points Hb Hr Hn) as (rate & E & U & _).
  assert (Drate : has_dim rate dim_per_time) by (unfold has_dim; rewrite U; exact Hb).
  destruct (monthly_rate_defined self n_points rate E Drate) as (mr & Em & _).
  unfold interest_of. rewrite E. cbn [bind]. rewrite Em. cbn [bind].
  eexists; reflexivity.
Qed.




(** ** The last payment *)

(** The payment that is yielded is always the base plus the extra: the
    branch of line 74 never lowers it.  A pass whose principal exceeds the
    balance therefore leaves a negative balance. *)
Lemma schedule_step_overshoot self n_points strategy base remaining next payment :
  schedule_step self n_points strategy base remaining = Ok (next, payment) ->
  qadd base (qmul (strategy remaining) one_month) = Ok payment /\
  forall interest,
    interest_of self n_points remaining = Ok interest ->
    (root (loan_amount remaining) < root payment - root interest)%Qc ->
    (root (loan_amount next) < 0)%Qc.
Proof.
  intros H. split.
  - apply schedule_step_inv in H.
    destruct H as (i & pr & _ & Ep & _). exact Ep.
  - intros interest Ei Hlt. apply schedule_step_ok in H.
    destruct H as (i & Ei' & _ & _ & _ & _ & Rn).
    assert (i = interest) by congruence. subst i.
    rewrite Rn. revert Hlt. qc2q. lra.
Qed.

(** C1, where the code departs from it: on the two-month loan with ten
    dollars extra a month the schedule ends after two steps; the second
    payment is the full 12211/201 dollars although only 8090/201 dollars
    are owed, and the final yielded balance is minus 20.10 dollars. *)
Theorem final_payment_overshoots :
  show_schedule (payment_schedule 5 two_month_loan no_points (Some ten_extra))
  = ([((8090 # 201, dollars), (12211 # 201, dollars));
      ((-201 # 10, dollars), (12211 # 201, dollars))], StopIteration) /\
  (root (loan_amount
           (final_state two_month_loan
              (fst (payment_schedule 5 two_month_loan no_points
                                     (Some ten_extra))))) < 0)%Qc.
Proof.
  split.
  - vm_compute. reflexivity.
  - vm_compute. reflexivity.
Qed.

(** ** Independence of the iteration bound *)

(** A run that has ended, by exhaustion of the loop or by an exception, is
    the same under any larger bound. *)
Lemma schedule_loop_more_fuel self n_points strategy base :
  forall fuel remaining,
    snd (schedule_loop fuel self n_points strategy base remaining) <> OutOfFuel ->
    forall fuel', (fuel <= fuel')%nat ->
      schedule_loop fuel' self n_points strategy base remaining
      = schedule_loop fuel self n_points strategy base remaining.
Proof.
  induction fuel as [| fuel IH]; intros remaining H fuel' Hle.
  - exfalso. apply H. reflexivity.
  - destruct fuel' as [| fuel']; [lia |].
    rewrite !schedule_loop_S in *.
    destruct (qgt (loan_amount remaining) epsilon) as [[|]|]; try reflexivity.
    destruct (schedule_step self n_points strategy base remaining)
      as [[next p]|]; try reflexivity.
    cbn [snd] in H. rewrite (IH next H fuel') by lia. reflexivity.
Qed.

Lemma payment_schedule_more_fuel fuel fuel' self n_points strategy :
  snd (payment_schedule fuel self n_points strategy) <> OutOfFuel ->
  (fuel <= fuel')%nat ->
  payment_schedule fuel' self n_points strategy
  = payment_schedule fuel self n_points strategy.
Proof.
  rewrite !payment_schedule_unfold.
  destruct (base_payment self n_points); [| reflexivity].
  intros H Hle. apply schedule_loop_more_fuel; assumption.
Qed.

(** Below a monthly rate of minus one, paying extra can lengthen the
    schedule: two steps without, three with 150 dollars more a month. *)
Example overpayment_longer_below_minus_one :
  show_schedule (payment_schedule 9 steep_loan no_points None)
  = ([((200 # 1, dollars), (-400 # 1, dollars));
      ((0 # 1, dollars), (-400 # 1, dollars))], StopIteration) /\
  show_schedule
    (payment_schedule 9 steep_loan no_points
       (Some (constant_strategy (mkQ (Qz 150) dollars_per_month))))
  = ([((50 # 1, dollars), (-250 # 1, dollars));
      ((150 # 1, dollars), (-250 # 1, dollars));
      ((-50 # 1, dollars), (-250 # 1, dollars))], StopIteration).
Proof. split; vm_compute; reflexivity. Qed.

(** * Further properties of the cost model *)

(** ** The down payment *)


(** ** Closing costs *)

Lemma actual_closing_costs_defined self n_points :
  well_dimensioned self -> has_dim n_points dim_point ->
  exists c,
    actual_closing_costs self n_points = Ok c /\
    units c = units (base_closing_costs self) /\
    root c = (root (base_closing_costs self)
              + root (cost_per_point self) * root (loan_amount self)
                * root n_points)%Qc.
Proof.
  unfold has_dim. intros (Hl & _ & _ & _ & Hc & Hp & _) Hn.
  destruct (qadd_defined (base_closing_costs self)
              (qmul (qmul (cost_per_point self) (loan_amount self)) n_points))
    as (c & Ec & Uc & Rc).
  { apply compatible_of_dims with (d := dim_money); [exact Hc |].
    cbn [units qmul]. rewrite !dimensionality_mul, Hp, Hl, Hn. reflexivity. }
  exists c. split; [exact Ec |]. split; [exact Uc |].
  rewrite Rc, !root_qmul. reflexivity.
Qed.

(** X2: for a well-dimensioned loan, [actual_closing_costs] is the base
    closing costs plus cost per point times loan amount times points, in
    the units of the base closing costs; with a cost per point and a loan
    amount that are not negative it does not decrease with the points. *)
Theorem actual_closing_costs_monotone self n1 n2 :
  well_dimensioned self ->
  has_dim n1 dim_point -> has_dim n2 dim_point ->
  (0 <= root (cost_per_point self))%Qc ->
  (0 <= root (loan_amount self))%Qc ->
  (root n1 <= root n2)%Qc ->
  exists c1 c2,
    actual_closing_costs self n1 = Ok c1 /\
    actual_closing_costs self n2 = Ok c2 /\
    units c1 = units (base_closing_costs self) /\
    units c2 = units (base_closing_costs self) /\
    root c1 = (root (base_closing_costs self)
               + root (cost_per_point self) * root (loan_amount self)
                 * root n1)%Qc /\
    root c2 = (root (base_closing_costs self)
               + root (cost_per_point self) * root (loan_amount self)
                 * root n2)%Qc /\
    (root c1 <= root c2)%Qc.
Proof.
  intros W H1 H2 Hc Hl Hle.
  destruct (actual_closing_costs_defined self n1 W H1) as (c1 & E1 & U1 & R1).
  destruct (actual_closing_costs_defined self n2 W H2) as (c2 & E2 & U2 & R2).
  exists c1, c2. repeat split; try assumption.
  rewrite R1, R2. revert Hc Hl Hle. qc2q.
  generalize (this (root (cost_per_point self)))
             (this (root (loan_amount self)))
             (this (root n1)) (this (root n2))
             (this (root (base_closing_costs self))).
  intros p l x y b Hp Hl Hxy.
  assert (Hpl : (0 <= p * l)%Q) by nra.
  nra.
Qed.

Lemma default_mortgage_well_dimensioned : well_dimensioned default_mortgage.
Proof. repeat split. Qed.

Lemma actual_closing_costs_monotone_witness :
  exists c1 c2,
    actual_closing_costs default_mortgage no_points = Ok c1 /\
    actual_closing_costs default_mortgage one_point = Ok c2 /\
    units c1 = units (base_closing_costs default_mortgage) /\
    units c2 = units (base_closing_costs default_mortgage) /\
    root c1 = (root (base_closing_costs default_mortgage)
               + root (cost_per_point default_mortgage)
                 * root (loan_amount default_mortgage) * root no_points)%Qc /\
    root c2 = (root (base_closing_costs default_mortgage)
               + root (cost_per_point default_mortgage)
                 * root (loan_amount default_mortgage) * root one_point)%Qc /\
    (root c1 <= root c2)%Qc.
Proof.
  apply (actual_closing_costs_monotone default_mortgage no_points one_point).
  - exact default_mortgage_well_dimensioned.
  - reflexivity.
  - reflexivity.
  - intro H; discriminate H.
  - intro H; discriminate H.
  - intro H; discriminate H.
Defined.

(** ** Buying no points *)

Lemma qsub_zero (a x : Quantity) :
  compatible (units a) (units x) = true -> root x = 0%Qc -> qsub a x = Ok a.
Proof.
  intros C R. unfold qsub. rewrite qadd_sub_spec, C, R.
  destruct a as [m u]. cbn [magnitude units]. do 2 f_equal.
  field. apply factor_neq_0.
Qed.

(** X3: with a number of points of magnitude zero, a well-dimensioned loan
    has the base rate itself as effective rate and the base closing costs
    themselves as closing costs. *)
Theorem no_points_change_nothing self n_points :
  well_dimensioned self -> has_dim n_points dim_point ->
  magnitude n_points = 0%Qc ->
  effective_rate self n_points = Ok (base_rate self) /\
  actual_closing_costs self n_points = Ok (base_closing_costs self).
Proof.
  unfold has_dim. intros (Hl & _ & _ & Hb & Hc & Hp & Hr) Hn M.
  assert (R : root n_points = 0%Qc) by (unfold root; rewrite M; ring).
  split.
  - unfold effective_rate. apply qsub_zero.
    + apply compatible_of_dims with (d := dim_per_time); [exact Hb |].
      cbn [units qmul]. rewrite dimensionality_mul, Hr, Hn. reflexivity.
    + rewrite root_qmul, R. ring.
  - unfold actual_closing_costs. apply qadd_zero.
    + apply compatible_of_dims with (d := dim_money); [exact Hc |].
      cbn [units qmul]. rewrite !dimensionality_mul, Hp, Hl, Hn. reflexivity.
    + rewrite root_qmul, R. ring.
Qed.

Lemma no_points_change_nothing_witness :
  effective_rate default_mortgage no_points = Ok (base_rate default_mortgage) /\
  actual_closing_costs default_mortgage no_points
  = Ok (base_closing_costs default_mortgage).
Proof.
  apply (no_points_change_nothing default_mortgage no_points).
  - exact default_mortgage_well_dimensioned.
  - reflexivity.
  - reflexivity.
Defined.

(** ** The number of payments *)

Lemma duration_in_months (u : Units) :
  compatible (units_div u month) dimensionless = true
  <-> dimensionality u = dim_time.
Proof.
  rewrite compatible_iff, dimensionality_div.
  destruct (dimensionality u) as [a t p].
  change (dimensionality month) with (mkDim 0 1 0).
  change (dimensionality dimensionless) with (mkDim 0 0 0).
  unfold dim_time. cbn [d_money d_time d_point].
  split; intros H;
    pose proof (f_equal d_money H) as Ha;
    pose proof (f_equal d_time H) as Ht;
    pose proof (f_equal d_point H) as Hp;
    cbn [d_money d_time d_point] in Ha, Ht, Hp; f_equal; lia.
Qed.

(** X4: [n_payments] raises a dimensionality error exactly when the
    duration is not a time; otherwise it is the least whole number of
    months that covers the duration. *)
Theorem n_payments_ceiling self :
  match n_payments self with
  | Ok n =>
      has_dim (duration self) dim_time /\
      (root (duration self) <= Qz n)%Qc /\
      (Qz (n - 1) < root (duration self))%Qc
  | Raise e =>
      e = DimensionalityError /\ ~ has_dim (duration self) dim_time
  end.
Proof.
  destruct (dim_eqb (dimensionality (units (duration self))) dim_time) eqn:D.
  - apply dim_eqb_eq in D. rewrite (n_payments_defined self D).
    split; [exact D |]. unfold Qz, Qcle, Qclt. rewrite !this_Q2Qc.
    split; [apply Qle_ceiling | apply Qceiling_lt].
  - assert (N : ~ has_dim (duration self) dim_time).
    { intros H. apply dim_eqb_eq in H. congruence. }
    unfold n_payments, qdiv.
    replace (Qc_eqb (magnitude one_month) 0) with false by reflexivity.
    cbn [bind]. unfold py_ceil. cbn [units].
    destruct (compatible (units_div (units (duration self)) (units one_month))
                dimensionless) eqn:C.
    + exfalso. apply N. apply duration_in_months. exact C.
    + split; [reflexivity | exact N].
Qed.

(** ** Errors that escape *)

Lemma effective_rate_needs_points self n_points :
  well_dimensioned self ->
  ~ has_dim n_points dim_point ->
  effective_rate self n_points = Raise DimensionalityError.
Proof.
  intros (_ & _ & _ & Hb & _ & _ & Hr) N.
  unfold effective_rate, qsub. rewrite qadd_sub_spec.
  destruct (compatible (units (base_rate self))
              (units (qmul (rate_reduction_per_point self) n_points))) eqn:C;
    [| reflexivity].
  exfalso. apply N.
  apply compatible_iff in C. cbn [units qmul] in C.
  unfold has_dim in *. rewrite dimensionality_mul, Hb, Hr in C.
  destruct (dimensionality (units n_points)) as [a t p].
  unfold dim_per_time, dim_per_time_point in C. cbn [d_money d_time d_point] in C.
  pose proof (f_equal d_money C) as Ha.
  pose proof (f_equal d_time C) as Ht.
  pose proof (f_equal d_point C) as Hp.
  cbn [d_money d_time d_point] in Ha, Ht, Hp.
  unfold dim_point. f_equal; lia.
Qed.

(** X5: when the number of points does not have the dimension of discount
    points, a well-dimensioned loan has no effective rate and no base
    payment; the schedule yields nothing and raises the dimensionality
    error, and so does [total_cost]. *)
Theorem wrong_points_raise fuel self n_points strategy :
  well_dimensioned self ->
  ~ has_dim n_points dim_point ->
  effective_rate self n_points = Raise DimensionalityError /\
  base_payment self n_points = Raise DimensionalityError /\
  payment_schedule fuel self n_points strategy
  = ([], Raised DimensionalityError) /\
  total_cost fuel self n_points strategy = Some (Raise DimensionalityError).
Proof.
  intros W N.
  pose proof (effective_rate_needs_points self n_points W N) as E.
  assert (B : base_payment self n_points = Raise DimensionalityError).
  { unfold base_payment. rewrite E. reflexivity. }
  assert (S1 : payment_schedule fuel self n_points strategy
               = ([], Raised DimensionalityError)).
  { rewrite payment_schedule_unfold, B. reflexivity. }
  repeat split; try assumption.
  unfold total_cost. rewrite S1. reflexivity.
Qed.

Lemma wrong_points_raise_witness :
  effective_rate default_mortgage bare_point = Raise DimensionalityError /\
  base_payment default_mortgage bare_point = Raise DimensionalityError /\
  payment_schedule 3 default_mortgage bare_point None
  = ([], Raised DimensionalityError) /\
  total_cost 3 default_mortgage bare_point None
  = Some (Raise DimensionalityError).
Proof.
  apply (wrong_points_raise 3 default_mortgage bare_point None).
  - exact default_mortgage_well_dimensioned.
  - intro H; discriminate H.
Defined.

(** X6: at an effective rate of zero a well-dimensioned loan has no base
    payment: line 55 divides by zero, whatever the duration and the
    balance; the schedule yields nothing and raises, and so does
    [total_cost]. *)
Theorem zero_rate_raises fuel self n_points strategy :
  well_dimensioned self -> has_dim n_points dim_point ->
  monthly_fraction self n_points = 0%Qc ->
  base_payment self n_points = Raise ZeroDivisionError /\
  payment_schedule fuel self n_points strategy
  = ([], Raised ZeroDivisionError) /\
  total_cost fuel self n_points strategy = Some (Raise ZeroDivisionError).
Proof.
  intros W Hn Hr.
  assert (B : base_payment self n_points = Raise ZeroDivisionError).
  { destruct W as (Hl & _ & Hd & Hb & _ & _ & Hrr).
    destruct (effective_rate_defined self n_points Hb Hrr Hn)
      as (rate & E & U & _).
    assert (Drate : has_dim rate dim_per_time)
      by (unfold has_dim; rewrite U; exact Hb).
    destruct (monthly_rate_defined self n_points rate E Drate)
      as (mr & Em & Um & Rm).
    unfold monthly_fraction in Hr. rewrite E in Hr.
    unfold base_payment. rewrite E. cbn [bind]. rewrite Em. cbn [bind].
    assert (C1 : compatible (units mr) per_month = true)
      by (rewrite Um; reflexivity).
    rewrite (qto_compatible _ _ C1). cbn [bind magnitude].
    rewrite (n_payments_defined self Hd). cbn [bind].
    rewrite factor_per_month, Rm, Hr.
    replace (1 + 0 / 1)%Qc with 1%Qc by (apply Qc_is_canon; reflexivity).
    unfold py_pow.
    replace (Qc_eqb 1 0) with false by reflexivity.
    rewrite andb_false_r. cbn [bind].
    assert (P1 : Q2Qc (Qpower 1%Qc (Qceiling (root (duration self)))) = 1%Qc).
    { apply Qc_is_canon. rewrite this_Q2Qc. apply Qpower_1. }
    rewrite P1. unfold qdiv_scalar.
    replace (Qc_eqb (1 - 1) 0) with true by reflexivity.
    reflexivity. }
  assert (S1 : payment_schedule fuel self n_points strategy
               = ([], Raised ZeroDivisionError)).
  { rewrite payment_schedule_unfold, B. reflexivity. }
  repeat split; try assumption.
  unfold total_cost. rewrite S1. reflexivity.
Qed.

Lemma zero_rate_raises_witness :
  base_payment zero_rate_paid_loan no_points = Raise ZeroDivisionError /\
  payment_schedule 3 zero_rate_paid_loan no_points (Some ten_extra)
  = ([], Raised ZeroDivisionError) /\
  total_cost 3 zero_rate_paid_loan no_points (Some ten_extra)
  = Some (Raise ZeroDivisionError).
Proof.
  apply (zero_rate_raises 3 zero_rate_paid_loan no_points (Some ten_extra)).
  - repeat split.
  - reflexivity.
  - apply Qc_is_canon. reflexivity.
Defined.

(** ** The size of the fixed payment *)


Lemma two_month_loan_valid : valid_loan two_month_loan.
Proof. repeat split; try reflexivity; intro H; discriminate H. Qed.


(** * Further properties of the schedule *)

(** ** The recurrence *)

Lemma schedule_loop_amortizes self n_points strategy base :
  forall fuel remaining,
    amortizes (monthly_fraction self n_points) (root base) strategy remaining
              (fst (schedule_loop fuel self n_points strategy base remaining)).
Proof.
  induction fuel as [| fuel IH]; intros remaining.
  - exact I.
  - rewrite schedule_loop_S.
    destruct (qgt (loan_amount remaining) epsilon) as [[|]|]; try exact I.
    destruct (schedule_step self n_points strategy base remaining)
      as [[next p]|] eqn:E; try exact I.
    cbn [fst amortizes]. split; [| split; [| apply IH]].
    + apply schedule_step_ok in E.
      destruct E as (_ & _ & _ & _ & Rp & _). exact Rp.
    + pose proof (schedule_step_balance _ _ _ _ _ _ _ E) as (_ & Rn).
      apply schedule_step_ok in E.
      destruct E as (_ & _ & _ & _ & Rp & _).
      rewrite Rn, Rp. ring.
Qed.

(** X8: every step of a schedule, the last one included, follows the
    amortization recurrence: the payment is the base payment for one month
    plus the extra the strategy asks for the balance before the step, and
    the new balance is the old one plus a month of interest less that
    payment.  Nothing is yielded when there is no base payment. *)
Theorem payment_schedule_amortizes fuel self n_points strategy :
  match base_payment self n_points with
  | Ok b =>
      amortizes (monthly_fraction self n_points) (root b)
                (strategy_or_default strategy) self
                (fst (payment_schedule fuel self n_points strategy))
  | Raise _ => fst (payment_schedule fuel self n_points strategy) = []
  end.
Proof.
  rewrite payment_schedule_unfold.
  destruct (base_payment self n_points) as [b|]; [| reflexivity].
  replace (root b) with (root (qmul b one_month))
    by (rewrite root_qmul, root_one_month; ring).
  apply schedule_loop_amortizes.
Qed.

(** ** The cut-off *)

Lemma schedule_loop_cutoff self n_points strategy base :
  forall fuel remaining l,
    schedule_loop fuel self n_points strategy base remaining
    = (l, StopIteration) ->
    Forall (fun m => (root epsilon < root (loan_amount m))%Qc)
           (removelast (visited remaining l)).
Proof.
  induction fuel as [| fuel IH]; intros remaining l H.
  - discriminate H.
  - rewrite schedule_loop_S in H.
    destruct (qgt (loan_amount remaining) epsilon) as [g|] eqn:G;
      [| discriminate H].
    apply qgt_ok in G. destruct G as (_ & ->).
    destruct (Qc_ltb (root epsilon) (root (loan_amount remaining))) eqn:G.
    + destruct (schedule_step self n_points strategy base remaining)
        as [[next p]|]; [| discriminate H].
      injection H as <- Hs. apply schedule_loop_finished in Hs.
      apply IH in Hs. unfold visited in *. cbn [map fst].
      change (removelast
                (remaining
                   :: next
                   :: map fst
                        (fst (schedule_loop fuel self n_points strategy base next))))
        with (remaining
                :: removelast
                     (next
                        :: map fst
                             (fst (schedule_loop fuel self n_points strategy
                                                 base next)))).
      constructor; [| exact Hs]. apply Qc_ltb_lt. exact G.
    + injection H as <-. constructor.
Qed.

(** X9: in a schedule that has ended, every state the loop went on from,
    the loan itself first, owes more than ten cents, and the last state
    owes at most ten cents. *)
Theorem payment_schedule_cutoff fuel self n_points strategy schedule :
  payment_schedule fuel self n_points strategy = (schedule, StopIteration) ->
  Forall (fun m => (root epsilon < root (loan_amount m))%Qc)
         (removelast (visited self schedule)) /\
  (root (loan_amount (final_state self schedule)) <= root epsilon)%Qc.
Proof.
  rewrite payment_schedule_unfold.
  destruct (base_payment self n_points) as [b|]; [| discriminate].
  intros H. split.
  - eapply schedule_loop_cutoff. exact H.
  - eapply schedule_loop_final. exact H.
Qed.

Lemma payment_schedule_cutoff_witness :
  Forall (fun m => (root epsilon < root (loan_amount m))%Qc)
         (removelast (visited two_month_loan two_month_steps)) /\
  (root (loan_amount (final_state two_month_loan two_month_steps))
   <= root epsilon)%Qc.
Proof.
  apply (payment_schedule_cutoff 5 two_month_loan no_points None two_month_steps).
  exact two_month_steps_finite.
Defined.

(** ** Payments without a strategy *)

Lemma no_strategy_payments fuel self n_points b :
  base_payment self n_points = Ok b ->
  Forall (fun step => snd step = qmul b one_month)
         (fst (payment_schedule fuel self n_points None)).
Proof.
  intros B. rewrite payment_schedule_unfold, B.
  apply schedule_loop_Forall. intros remaining next payment H.
  apply schedule_step_inv in H.
  destruct H as (_ & _ & _ & Ep & _).
  rewrite zero_extra_payment in Ep.
  - cbn [snd]. congruence.
  - cbn [units qmul]. rewrite (base_payment_units _ _ _ B). reflexivity.
  - reflexivity.
  - reflexivity.
Qed.

(** X10: without a strategy every yielded payment, the last one included,
    is the base payment for one month, as a quantity; nothing is yielded
    when there is no base payment. *)
Theorem no_strategy_constant_payment fuel self n_points :
  match base_payment self n_points with
  | Ok b =>
      Forall (fun step => snd step = qmul b one_month)
             (fst (payment_schedule fuel self n_points None))
  | Raise _ => fst (payment_schedule fuel self n_points None) = []
  end.
Proof.
  destruct (base_payment self n_points) as [b|] eqn:B.
  - apply no_strategy_payments. exact B.
  - rewrite payment_schedule_unfold, B. reflexivity.
Qed.


(** ** Paying off without a strategy *)

Lemma Qpower_nat (x : Qc) (n : nat) :
  Q2Qc (Qpower x (Z.of_nat n)) = Qcpower x n.
Proof.
  induction n as [| n IH].
  - reflexivity.
  - cbn [Qcpower]. rewrite <- IH. apply Qc_is_canon.
    rewrite this_mult, !this_Q2Qc, Nat2Z.inj_succ. unfold Z.succ.
    rewrite Qpower_plus' by lia. rewrite Qpower_1_r. ring.
Qed.

Lemma Qcpower_ge_1 (q : Qc) (n : nat) : (1 <= q)%Qc -> (1 <= Qcpower q n)%Qc.
Proof.
  intros Hq. induction n as [| n IH].
  - apply Qcle_refl.
  - cbn [Qcpower]. revert Hq IH. qc2q. nra.
Qed.

Lemma Qcpower_add (q : Qc) (k j : nat) :
  Qcpower q (k + j) = (Qcpower q k * Qcpower q j)%Qc.
Proof.
  induction k as [| k IH]; cbn [Nat.add Qcpower].
  - ring.
  - rewrite IH. ring.
Qed.

Lemma Qcpower_le (q : Qc) (k n : nat) :
  (1 <= q)%Qc -> (k <= n)%nat -> (Qcpower q k <= Qcpower q n)%Qc.
Proof.
  intros Hq Hle. replace n with (k + (n - k))%nat by lia.
  rewrite Qcpower_add.
  pose proof (Qcpower_ge_1 q k Hq) as Hk.
  pose proof (Qcpower_ge_1 q (n - k) Hq) as Hj.
  revert Hk Hj. qc2q. nra.
Qed.

Lemma nonneg_of_product (b d x : Qc) :
  (0 < d)%Qc -> (0 <= x)%Qc -> (b * d)%Qc = x -> (0 <= b)%Qc.
Proof.
  intros Hd Hx E.
  assert (H : (0 <= b * d)%Qc) by (rewrite E; exact Hx).
  revert Hd H. qc2q. nra.
Qed.

Lemma final_state_cons (a b : Mortgage) (p : Quantity)
      (t : list (Mortgage * Quantity)) :
  final_state a ((b, p) :: t) = final_state b t.
Proof.
  unfold final_state. cbn [map fst].
  destruct (map fst t) as [| y u]; [reflexivity |].
  change (last (y :: u) a = last (y :: u) b).
  revert y. induction u as [| z u IHu]; intros y; [reflexivity |].
  change (last (z :: u) a = last (z :: u) b). apply IHu.
Qed.

(** A pass through the loop body for a well-dimensioned loan, a base in
    dollars and an extra of money per time. *)
Lemma schedule_step_money self n_points strategy base remaining :
  well_dimensioned self -> has_dim n_points dim_point ->
  units base = dollars ->
  has_dim (strategy remaining) dim_money_per_time ->
  units (loan_amount remaining) = units (loan_amount self) ->
  exists next payment,
    schedule_step self n_points strategy base remaining = Ok (next, payment) /\
    units (loan_amount next) = units (loan_amount self) /\
    root (loan_amount next)
    = (root (loan_amount remaining) * (1 + monthly_fraction self n_points)
       - root base - root (strategy remaining))%Qc.
Proof.
  intros W Hn Ub Ds U.
  assert (Hl : has_dim (loan_amount self) dim_money) by apply W.
  destruct (interest_of_defined self n_points remaining W Hn) as (i & Ei).
  destruct (schedule_step_defined self n_points strategy base remaining i Ei)
    as (next & p & S1).
  - apply compatible_iff. rewrite Ub, (dimensionality_mul_month _ Ds).
    reflexivity.
  - apply interest_of_ok in Ei. destruct Ei as (_ & Ui).
    apply compatible_iff. rewrite Ub, Ui, !dimensionality_mul, U, Hl.
    reflexivity.
  - apply compatible_iff. rewrite Ub, U, Hl. reflexivity.
  - exists next, p. split; [exact S1 |].
    apply schedule_step_balance in S1. destruct S1 as (Un & Rn).
    split; [congruence | exact Rn].
Qed.

(** With the balance on the curve of the fixed payment after [k] steps,
    the loop ends within the [j] steps that remain, on balances that are
    never negative, and at zero if it takes them all. *)
Lemma schedule_loop_payoff self n_points base (n : nat) :
  well_dimensioned self -> has_dim n_points dim_point ->
  units base = dollars ->
  (0 <= root (loan_amount self))%Qc ->
  (0 < monthly_fraction self n_points)%Qc ->
  (1 < Qcpower (1 + monthly_fraction self n_points) n)%Qc ->
  (root base * (Qcpower (1 + monthly_fraction self n_points) n - 1))%Qc
  = (root (loan_amount self) * monthly_fraction self n_points
     * Qcpower (1 + monthly_fraction self n_points) n)%Qc ->
  forall (j k : nat) remaining,
    (k + j = n)%nat ->
    units (loan_amount remaining) = units (loan_amount self) ->
    (root (loan_amount remaining)
     * (Qcpower (1 + monthly_fraction self n_points) n - 1))%Qc
    = (root (loan_amount self)
       * (Qcpower (1 + monthly_fraction self n_points) n
          - Qcpower (1 + monthly_fraction self n_points) k))%Qc ->
    exists l,
      schedule_loop (S j) self n_points no_overpayment base remaining
      = (l, StopIteration) /\
      (length l <= j)%nat /\
      Forall (fun step => (0 <= root (loan_amount (fst step)))%Qc) l /\
      (length l = j -> root (loan_amount (final_state remaining l)) = 0%Qc).
Proof.
  intros W Hn Ub Hp Hr Hc HB.
  set (P := root (loan_amount self)) in *.
  set (r := monthly_fraction self n_points) in *.
  set (c := Qcpower (1 + r) n) in *.
  assert (Hl : has_dim (loan_amount self) dim_money) by apply W.
  assert (Hq : (1 <= 1 + r)%Qc) by (revert Hr; qc2q; lra).
  assert (Hc0 : (0 < c - 1)%Qc) by (revert Hc; qc2q; lra).
  induction j as [| j IH]; intros k remaining Hk U Hb.
  - assert (Z0 : root (loan_amount remaining) = 0%Qc).
    { replace k with n in Hb by lia. fold c in Hb.
      replace (P * (c - c))%Qc with 0%Qc in Hb by ring.
      destruct (Qcmult_integral _ _ Hb) as [H | H]; [exact H |].
      rewrite H in Hc0. exfalso. revert Hc0. unfold Qclt. cbn. lra. }
    rewrite schedule_loop_S, qgt_defined
      by (apply compatible_iff; rewrite U, Hl; reflexivity).
    rewrite Z0.
    replace (Qc_ltb (root epsilon) 0) with false by reflexivity.
    exists []. repeat split; [cbn; lia | constructor | intros _; exact Z0].
  - rewrite schedule_loop_S, qgt_defined
      by (apply compatible_iff; rewrite U, Hl; reflexivity).
    destruct (Qc_ltb (root epsilon) (root (loan_amount remaining))).
    2:{ exists []. repeat split; [cbn; lia | constructor |].
        cbn. intros H. discriminate H. }
    destruct (schedule_step_money self n_points no_overpayment base remaining
                W Hn Ub eq_refl U) as (next & p & S1 & Un & Rn).
    fold r in Rn. rewrite S1.
    assert (Hb' : (root (loan_amount next) * (c - 1))%Qc
                  = (P * (c - Qcpower (1 + r) (S k)))%Qc).
    { rewrite Rn.
      replace (root (no_overpayment remaining)) with 0%Qc
        by (unfold no_overpayment, root; cbn; ring).
      replace ((root (loan_amount remaining) * (1 + r) - root base - 0)
               * (c - 1))%Qc
        with (root (loan_amount remaining) * (c - 1) * (1 + r)
              - root base * (c - 1))%Qc by ring.
      rewrite Hb, HB. cbn [Qcpower]. ring. }
    assert (N0 : (0 <= root (loan_amount next))%Qc).
    { apply (nonneg_of_product _ (c - 1)%Qc _ Hc0) in Hb' as H; [exact H |].
      assert (Hle : (Qcpower (1 + r) (S k) <= c)%Qc)
        by (apply Qcpower_le; [exact Hq | lia]).
      revert Hp Hle. qc2q. nra. }
    destruct (IH (S k) next) as (l & El & Ll & Fl & Zl); [lia | exact Un | exact Hb' |].
    rewrite El. exists ((next, p) :: l). cbn [fst snd length].
    repeat split.
    + lia.
    + constructor; [exact N0 | exact Fl].
    + intros H. rewrite final_state_cons. apply Zl. lia.
Qed.

(** X12: without a strategy, a valid loan at a positive rate is paid down
    to the cut-off within [n_payments] steps; no yielded balance is
    negative, and when the schedule takes all [n_payments] steps the last
    balance is exactly zero. *)
Theorem no_strategy_pays_off self n_points :
  valid_loan self -> has_dim n_points dim_point ->
  (0 < monthly_fraction self n_points)%Qc ->
  (1 <= payments_count self)%Z ->
  exists schedule,
    payment_schedule (S (Z.to_nat (payments_count self))) self n_points None
    = (schedule, StopIteration) /\
    (length schedule <= Z.to_nat (payments_count self))%nat /\
    Forall (fun step => (0 <= root (loan_amount (fst step)))%Qc) schedule /\
    (length schedule = Z.to_nat (payments_count self) ->
     root (loan_amount (final_state self schedule)) = 0%Qc).
Proof.
  intros (W & Hp & _) Hn Hr HN.
  assert (Hc : (1 < compounding_of self n_points)%Qc)
    by (apply compounding_gt_1; assumption).
  assert (Hc1 : compounding_of self n_points <> 1%Qc).
  { intros H. rewrite H in Hc. revert Hc. unfold Qclt. cbn. lra. }
  destruct (base_payment_closed self n_points W Hn HN Hc1) as (_ & B).
  assert (Ec : compounding_of self n_points
               = Qcpower (1 + monthly_fraction self n_points)
                         (Z.to_nat (payments_count self))).
  { unfold compounding_of. rewrite <- Qpower_nat.
    rewrite Z2Nat.id by lia. reflexivity. }
  rewrite Ec in *.
  rewrite payment_schedule_unfold, B.
  apply (schedule_loop_payoff self n_points _ (Z.to_nat (payments_count self)))
    with (k := 0%nat); try assumption.
  - reflexivity.
  - rewrite root_qmul, root_one_month, root_dollars_per_month.
    assert (Hne : (Qcpower (1 + monthly_fraction self n_points)
                           (Z.to_nat (payments_count self)) - 1)%Qc <> 0%Qc).
    { intros H. apply Hc1.
      replace (Qcpower (1 + monthly_fraction self n_points)
                       (Z.to_nat (payments_count self)))
        with ((Qcpower (1 + monthly_fraction self n_points)
                       (Z.to_nat (payments_count self)) - 1) + 1)%Qc by ring.
      rewrite H. ring. }
    field. intros H. apply Hne. exact H.
  - lia.
  - reflexivity.
  - cbn [Qcpower]. ring.
Qed.

Lemma no_strategy_pays_off_witness :
  exists schedule,
    payment_schedule (S (Z.to_nat (payments_count two_month_loan)))
                     two_month_loan no_points None
    = (schedule, StopIteration) /\
    (length schedule <= Z.to_nat (payments_count two_month_loan))%nat /\
    Forall (fun step => (0 <= root (loan_amount (fst step)))%Qc) schedule /\
    (length schedule = Z.to_nat (payments_count two_month_loan) ->
     root (loan_amount (final_state two_month_loan schedule)) = 0%Qc).
Proof.
  apply (no_strategy_pays_off two_month_loan no_points).
  - exact two_month_loan_valid.
  - reflexivity.
  - reflexivity.
  - intro H; discriminate H.
Defined.

(** ** The total cost without a strategy *)

Lemma total_payments_constant (x : Quantity) (l : list Quantity) :
  Forall (fun q => q = x) l ->
  total_payments l = (Qz (Z.of_nat (length l)) * root x)%Qc.
Proof.
  induction 1 as [| q l Hq Hl IH].
  - cbn. apply Qc_is_canon. reflexivity.
  - cbn [total_payments fold_right length]. fold (total_payments l).
    rewrite IH, Qz_succ, Hq. ring.
Qed.

(** X13: without a strategy, when the schedule is finite, [total_cost]
    returns the down payment plus the closing costs plus the base payment
    for one month times the number of months it reports. *)
Theorem no_strategy_total_cost fuel self n_points schedule :
  well_dimensioned self ->
  payment_schedule fuel self n_points None = (schedule, StopIteration) ->
  exists d c b total,
    down_payment self = Ok d /\
    actual_closing_costs self n_points = Ok c /\
    base_payment self n_points = Ok b /\
    total_cost fuel self n_points None
    = Some (Ok (total, mkQ (Qz (Z.of_nat (length schedule))) month)) /\
    root total
    = (root d + root c + Qz (Z.of_nat (length schedule)) * root b)%Qc.
Proof.
  intros W E.
  assert (Hn : has_dim n_points dim_point).
  { apply (base_payment_points self n_points W).
    exact (finite_schedule_base_payment _ _ _ _ _ E). }
  destruct (upfront_defined self n_points W Hn)
    as (d & c & dc & Ed & Ec & Edc & Ddc & Udc & Rdc).
  destruct (base_payment self n_points) as [b|] eqn:B.
  2:{ rewrite payment_schedule_unfold, B in E. discriminate E. }
  assert (Hl : Forall (fun q => units q = dollars) (map snd schedule)).
  { apply Forall_map.
    pose proof (payment_schedule_units fuel self n_points None) as F.
    rewrite E in F. exact F. }
  assert (Hb : Forall (fun q => q = qmul b one_month) (map snd schedule)).
  { apply Forall_map.
    pose proof (no_strategy_payments fuel self n_points b B) as F.
    rewrite E in F. exact F. }
  destruct (py_sum_dollars (map snd schedule) dc Hl Ddc)
    as (s & total & Es & Et & Ut & Rt).
  exists d, c, b, total. repeat split; try assumption.
  - unfold total_cost. rewrite E, Ed, Ec. cbn [bind]. rewrite Edc. cbn [bind].
    rewrite Es. cbn [bind]. rewrite Et. reflexivity.
  - rewrite Rt, Rdc, (total_payments_constant _ _ Hb), length_map.
    rewrite root_qmul, root_one_month. ring.
Qed.

Lemma no_strategy_total_cost_witness :
  exists d c b total,
    down_payment two_month_loan = Ok d /\
    actual_closing_costs two_month_loan no_points = Ok c /\
    base_payment two_month_loan no_points = Ok b /\
    total_cost 5 two_month_loan no_points None
    = Some (Ok (total, mkQ (Qz (Z.of_nat (length two_month_steps))) month)) /\
    root total
    = (root d + root c
       + Qz (Z.of_nat (length two_month_steps)) * root b)%Qc.
Proof.
  apply (no_strategy_total_cost 5 two_month_loan no_points two_month_steps).
  - exact two_month_loan_well_dimensioned.
  - exact two_month_steps_finite.
Defined.

(** ** Balances go down *)



